(** * Simulated device commands: normalisation, matching and the
      create/update/delete protocol of the [handler] package

    The handler of the repository is embedded over
    - Go strings as sequences of runes (the request bodies are decoded from
      JSON, so every string is valid UTF-8 and byte equality, byte prefix and
      rune equality, rune prefix coincide);
    - the [strings] and [unicode] functions the handler calls;
    - the record store behind [database.GetDB] (SQLite through gorm), as
      explicit state threaded through a small state monad, with the
      contention the store may meet as part of that state. *)

From Stdlib Require Import String Ascii ZArith List Bool Lia Permutation Sorted.
Import ListNotations.
Open Scope Z_scope.

(** ** Go strings *)

Definition rune := Z.
Definition gostring := list rune.

(** A string literal of the source, as the runes of its ASCII text. *)
Definition str (s : string) : gostring :=
  map (fun a => Z.of_N (N_of_ascii a)) (list_ascii_of_string s).

(** [==] on strings. *)
Fixpoint streq (a b : gostring) : bool :=
  match a, b with
  | [], [] => true
  | x :: a', y :: b' => (x =? y) && streq a' b'
  | _, _ => false
  end.

Module unicode.

Definition MaxASCII : rune := 127.
Definition MaxLatin1 : rune := 255.

(** [unicode.IsSpace]: the Latin-1 spaces, then the White_Space table. *)
Definition IsSpace (r : rune) : bool :=
  if r <=? MaxLatin1 then
    (r =? 9) || (r =? 10) || (r =? 11) || (r =? 12) || (r =? 13)
    || (r =? 32) || (r =? 133) || (r =? 160)
  else
    (r =? 5760) || ((8192 <=? r) && (r <=? 8202)) || (r =? 8232)
    || (r =? 8233) || (r =? 8239) || (r =? 8287) || (r =? 12288).

Section CaseTable.
(** [unicode.To(LowerCase, r)], the lookup in the case tables of the Go
    library, which [unicode.ToLower] consults above [MaxASCII] only. *)
Variable To_LowerCase : rune -> rune.

Definition ToLower (r : rune) : rune :=
  if r <=? MaxASCII then
    if (65 <=? r) && (r <=? 90) then r + 32 else r
  else To_LowerCase r.

End CaseTable.

End unicode.

Module strings.

Fixpoint TrimLeftSpace (s : gostring) : gostring :=
  match s with
  | [] => []
  | c :: t => if unicode.IsSpace c then TrimLeftSpace t else s
  end.

(** [strings.TrimSpace]: leading and trailing white space removed. *)
Definition TrimSpace (s : gostring) : gostring :=
  rev (TrimLeftSpace (rev (TrimLeftSpace s))).

Fixpoint HasPrefix (s prefix : gostring) {struct prefix} : bool :=
  match prefix, s with
  | [], _ => true
  | p :: prefix', c :: s' => (c =? p) && HasPrefix s' prefix'
  | _ :: _, [] => false
  end.

(** The scan of [strings.ReplaceAll] for a non-empty [old]: [skip] counts the
    runes of a match still to be passed over. *)
Fixpoint replace_from (skip : nat) (old new s : gostring) : gostring :=
  match s with
  | [] => []
  | c :: t =>
    match skip with
    | S k => replace_from k old new t
    | O =>
      if HasPrefix s old
      then new ++ replace_from (Nat.pred (length old)) old new t
      else c :: replace_from 0 old new t
    end
  end.

(** [strings.ReplaceAll]: the non-overlapping matches of [old], left to
    right; an empty [old] matches before every rune and at the end. *)
Definition ReplaceAll (s old new : gostring) : gostring :=
  match old with
  | [] => new ++ flat_map (fun c => c :: new) s
  | _ :: _ => replace_from 0 old new s
  end.

(** The scan of [strings.Fields]: [cur] is the field being read, reversed. *)
Fixpoint fields_from (cur s : gostring) : list gostring :=
  match s with
  | [] => match cur with [] => [] | _ :: _ => [rev cur] end
  | c :: t =>
    if unicode.IsSpace c then
      match cur with
      | [] => fields_from [] t
      | _ :: _ => rev cur :: fields_from [] t
      end
    else fields_from (c :: cur) t
  end.

(** [strings.Fields]: the maximal runs of runes that are not white space. *)
Definition Fields (s : gostring) : list gostring := fields_from [] s.

Fixpoint Join (elems : list gostring) (sep : gostring) : gostring :=
  match elems with
  | [] => []
  | w :: rest =>
    match rest with
    | [] => w
    | _ :: _ => w ++ sep ++ Join rest sep
    end
  end.

Definition ToLower (To_LowerCase : rune -> rune) (s : gostring) : gostring :=
  map (unicode.ToLower To_LowerCase) s.

End strings.

(** ** Results, the record and the store *)

Inductive result (E A : Type) : Type :=
| Ok (a : A)
| Err (e : E).
Arguments Ok {E A} a.
Arguments Err {E A} e.

Module model.

(** Modelled from the spec: the declaration of [model.SimDeviceCommand] is not
    among the sources; the fields are those of the CommandRecord of the data
    model (id, namespace, deviceName, command, output, enabled, updatedAt). *)
Record SimDeviceCommand := {
  ID : Z;
  Namespace : gostring;
  DeviceName : gostring;
  Command : gostring;
  Output : gostring;
  Enabled : bool;
  UpdatedAt : Z
}.

End model.
Import model.

Module database.

(** Modelled from the spec: package [database] ([GetDB], [WithRetry]) and the
    gorm store behind it are not among the sources.  The store is the table in
    primary-key order, the next key the store assigns, its clock, and the
    contention ahead: one entry of [busy] is consumed by every call that
    reaches the store, [true] meaning that this call comes back with the
    transient "database is locked" error and changes nothing. *)
Record DB := {
  rows : list SimDeviceCommand;
  next_id : Z;
  clock : Z;
  busy : list bool
}.

Inductive error := ErrRecordNotFound | ErrBusy.

Definition Error (e : error) : string :=
  match e with
  | ErrRecordNotFound => "record not found"
  | ErrBusy => "database is locked"
  end.

(** Computations over the store. *)
Definition M (A : Type) : Type := DB -> A * DB.

Definition ret {A} (a : A) : M A := fun db => (a, db).

Definition bind {A B} (m : M A) (k : A -> M B) : M B :=
  fun db => let (a, db') := m db in k a db'.

Definition with_rows (l : list SimDeviceCommand) (db : DB) : DB :=
  {| rows := l; next_id := next_id db; clock := clock db; busy := busy db |}.

Definition with_busy (b : list bool) (db : DB) : DB :=
  {| rows := rows db; next_id := next_id db; clock := clock db; busy := b |}.

(** Time passing, in milliseconds: a write stamps the record with the clock
    and takes one unit, a retry sleeps for its delay. *)
Definition tick (d : Z) (db : DB) : DB :=
  {| rows := rows db; next_id := next_id db; clock := clock db + d; busy := busy db |}.

(** One call reaching the store. *)
Definition call {A} (op : M (result error A)) : M (result error A) :=
  fun db =>
    match busy db with
    | [] => op db
    | false :: b => op (with_busy b db)
    | true :: b => (Err ErrBusy, with_busy b db)
    end.

(** SQLite's [LOWER]: the ASCII letters only. *)
Definition LOWER (s : gostring) : gostring :=
  map (fun r => if (65 <=? r) && (r <=? 90) then r + 32 else r) s.

(** [namespace = ? AND device_name = ? AND LOWER(command) = LOWER(?)]. *)
Definition where_key (ns dev cmd : gostring) (r : SimDeviceCommand) : bool :=
  streq (Namespace r) ns && streq (DeviceName r) dev
  && streq (LOWER (Command r)) (LOWER cmd).

(** [namespace = ? AND device_name = ?], and [enabled = 1] when asked. *)
Definition where_device (ns dev : gostring) (enabledOnly : bool)
  (r : SimDeviceCommand) : bool :=
  streq (Namespace r) ns && streq (DeviceName r) dev
  && (if enabledOnly then Enabled r else true).

Definition where_id (id : Z) (r : SimDeviceCommand) : bool := ID r =? id.

(** [db.Where(...).First(&x)] and [db.First(&x, id)]: the first row, in
    primary-key order, that the condition selects. *)
Definition First (cond : SimDeviceCommand -> bool) : M (result error SimDeviceCommand) :=
  call (fun db =>
    match find cond (rows db) with
    | Some r => (Ok r, db)
    | None => (Err ErrRecordNotFound, db)
    end).

(** [q.Find(&items)]. *)
Definition Find (cond : SimDeviceCommand -> bool) : M (result error (list SimDeviceCommand)) :=
  call (fun db => (Ok (filter cond (rows db)), db)).

(** [d.Create(&req)]: the store assigns the key and the time stamp; the
    record handed in comes back completed. *)
Definition Create (ns dev cmd out : gostring) (en : bool) : M (result error SimDeviceCommand) :=
  call (fun db =>
    let r := {| ID := next_id db; Namespace := ns; DeviceName := dev;
                Command := cmd; Output := out; Enabled := en;
                UpdatedAt := clock db |} in
    (Ok r, {| rows := rows db ++ [r]; next_id := next_id db + 1;
              clock := clock db + 1; busy := busy db |})).

(** The [map[string]interface{}] of an update: the keys present. *)
Record fields := {
  f_namespace : option gostring;
  f_device_name : option gostring;
  f_command : option gostring;
  f_output : option gostring;
  f_enabled : option bool
}.

Definition opt {A} (o : option A) (d : A) : A :=
  match o with Some a => a | None => d end.

Definition assign (upd : fields) (now : Z) (r : SimDeviceCommand) : SimDeviceCommand :=
  {| ID := ID r;
     Namespace := opt (f_namespace upd) (Namespace r);
     DeviceName := opt (f_device_name upd) (DeviceName r);
     Command := opt (f_command upd) (Command r);
     Output := opt (f_output upd) (Output r);
     Enabled := opt (f_enabled upd) (Enabled r);
     UpdatedAt := now |}.

(** [d.Model(&x).Updates(upd)]: every key of the map is written to the row
    whose key is that of [x], the time stamp refreshed; gorm assigns the same
    values to [x], which comes back. *)
Definition Updates (x : SimDeviceCommand) (upd : fields) : M (result error SimDeviceCommand) :=
  call (fun db =>
    (Ok (assign upd (clock db) x),
     {| rows := map (fun r => if where_id (ID x) r then assign upd (clock db) r else r) (rows db);
        next_id := next_id db; clock := clock db + 1; busy := busy db |})).

(** [d.Delete(&x)] and [d.Delete(&model.SimDeviceCommand{}, id)]: no row
    with that key is left; deleting none is no error. *)
Definition Delete (id : Z) : M (result error unit) :=
  call (fun db => (Ok tt, with_rows (filter (fun r => negb (where_id id r)) (rows db)) db)).

(** Modelled from the spec: [database.WithRetry] is not among the sources;
    it "retries on transient contention and surfaces the last error after
    exhaustion".  [retry] is its attempts after the first: a locked store is
    tried again after the delay while attempts remain, any other outcome is
    returned as it is. *)
Fixpoint retry {A} (fn : M (result error A)) (more : nat) (delay : Z) : M (result error A) :=
  fun db =>
    match fn db with
    | (Err ErrBusy, db') =>
      match more with
      | O => (Err ErrBusy, db')
      | S k => retry fn k delay (tick delay db')
      end
    | other => other
    end.

(** Modelled from the spec: [database.WithRetry(fn, maxAttempts, delay)]. *)
Definition WithRetry {A} (fn : M (result error A)) (attempts : nat) (delay : Z) : M (result error A) :=
  retry fn (Nat.pred attempts) delay.

(** [ORDER BY updated_at DESC]: a row goes before the first row that is not
    newer, so that rows of one time stamp stay in primary-key order. *)
Fixpoint insert_desc (r : SimDeviceCommand) (l : list SimDeviceCommand)
  : list SimDeviceCommand :=
  match l with
  | [] => [r]
  | x :: t => if UpdatedAt r <? UpdatedAt x then x :: insert_desc r t else r :: x :: t
  end.

Definition updated_at_DESC (l : list SimDeviceCommand) : list SimDeviceCommand :=
  fold_right insert_desc [] l.

(** [q.Order("updated_at DESC").Find(&items)]. *)
Definition FindOrdered (cond : SimDeviceCommand -> bool)
  : M (result error (list SimDeviceCommand)) :=
  call (fun db => (Ok (updated_at_DESC (filter cond (rows db))), db)).

End database.
Import database.

Notation "x <- m ;; k" := (bind m (fun x => k))
  (at level 61, m at next level, right associativity).

Module http.
Definition StatusOK : Z := 200.
Definition StatusCreated : Z := 201.
Definition StatusBadRequest : Z := 400.
Definition StatusNotFound : Z := 404.
Definition StatusInternalServerError : Z := 500.
End http.

(** ** Package [handler] *)

Module handler.

Section CaseTable.
Variable To_LowerCase : rune -> rune.

(** [normalizeCommand], lines 25-32. *)
Definition normalizeCommand (s : gostring) : gostring :=
  let s := strings.TrimSpace s in
  if streq s [] then s else
  let s := strings.ReplaceAll s [13; 10] [10] in
  let s := strings.ReplaceAll s [9] [32] in
  let s := strings.Join (strings.Fields s) [32] in
  strings.ToLower To_LowerCase s.

(** The loop of [prefixMatchByWords] over the two word slices, walked
    together: the guard [len(cand) < len(in)] has been passed, a candidate
    that runs out first is the same refusal. *)
Fixpoint prefix_words (inw cand : list gostring) : bool :=
  match inw with
  | [] => true
  | w :: inw' =>
    match cand with
    | [] => false
    | c :: cand' => if strings.HasPrefix c w then prefix_words inw' cand' else false
    end
  end.

(** [prefixMatchByWords], lines 35-44. *)
Definition prefixMatchByWords (input candidate : gostring) : bool :=
  let inw := strings.Fields (normalizeCommand input) in
  let cand := strings.Fields (normalizeCommand candidate) in
  if (length inw =? 0)%nat then false
  else if (length cand <? length inw)%nat then false
  else prefix_words inw cand.

(** The scan of [MatchSimDeviceCmd], lines 243-254: the exact match, if the
    scan met one, and the partial matches collected until then. *)
Fixpoint scan (inNorm input : gostring) (items candidates : list SimDeviceCommand)
  : option SimDeviceCommand * list SimDeviceCommand :=
  match items with
  | [] => (None, candidates)
  | it :: rest =>
    let cmdNorm := normalizeCommand (Command it) in
    if streq inNorm cmdNorm then (Some it, candidates)
    else if prefixMatchByWords input (Command it)
         then scan inNorm input rest (candidates ++ [it])
         else scan inNorm input rest candidates
  end.

End CaseTable.

(** The [data] of a response ([logger.Error] only writes to the log and is
    left out). *)
Inductive gin_H :=
| H_none
| H_record (r : SimDeviceCommand)
| H_match (match_type : string) (output : gostring).

Record response := {
  status : Z;
  code : string;
  message : string;
  data : gin_H
}.

Definition JSON (st : Z) (c m : string) (d : gin_H) : response :=
  {| status := st; code := c; message := m; data := d |}.

(** Modelled from the spec: the body of a create or update request binds the
    fields a caller supplies (namespace, device, command, output, enabled
    flag); the key and the time stamp are the store's. *)
Record SimDeviceCmdBody := {
  req_Namespace : gostring;
  req_DeviceName : gostring;
  req_Command : gostring;
  req_Output : gostring;
  req_Enabled : bool
}.

(** The request struct of [MatchSimDeviceCmd], lines 215-220. *)
Record MatchBody := {
  m_Namespace : gostring;
  m_DeviceName : gostring;
  m_Command : gostring;
  m_EnabledOnly : bool
}.

(** [CreateSimDeviceCmd], lines 47-86.  [body] is what [ShouldBindJSON]
    yields: the bound request or the text of its error. *)
Definition CreateSimDeviceCmd (body : result string SimDeviceCmdBody) : M response :=
  match body with
  | Err err =>
    ret (JSON http.StatusBadRequest "INVALID_PARAMS" (String.append "参数错误: " err) H_none)
  | Ok req =>
    let Namespace := strings.TrimSpace (req_Namespace req) in
    let DeviceName := strings.TrimSpace (req_DeviceName req) in
    let Command := strings.TrimSpace (req_Command req) in
    if streq Namespace [] || streq DeviceName [] || streq Command [] then
      ret (JSON http.StatusBadRequest "MISSING_FIELDS"
             "namespace、device_name 与 command 不能为空" H_none)
    else
    let Enabled := if negb (req_Enabled req) then true else req_Enabled req in
    found <- First (where_key Namespace DeviceName Command) ;;
    match found with
    | Ok existing =>
      let update := {| f_namespace := None; f_device_name := None; f_command := None;
                       f_output := Some (req_Output req); f_enabled := Some Enabled |} in
      r <- WithRetry (Updates existing update) 6 100 ;;
      match r with
      | Err err =>
        ret (JSON http.StatusInternalServerError "UPSERT_FAILED"
               (String.append "更新失败: " (Error err)) H_none)
      | Ok existing' =>
        ret (JSON http.StatusOK "SUCCESS" "已更新现有记录" (H_record existing'))
      end
    | Err _ =>
      r <- WithRetry (Create Namespace DeviceName Command (req_Output req) Enabled) 6 100 ;;
      match r with
      | Err err =>
        ret (JSON http.StatusInternalServerError "CREATE_FAILED"
               (String.append "创建失败: " (Error err)) H_none)
      | Ok created =>
        ret (JSON http.StatusCreated "SUCCESS" "创建成功" (H_record created))
      end
    end
  end.

(** [GetSimDeviceCmd], lines 120-134.  [id] is what [strconv.Atoi] made of
    the path parameter (0 when it is no number). *)
Definition GetSimDeviceCmd (id : Z) : M response :=
  if id <=? 0 then
    ret (JSON http.StatusBadRequest "INVALID_ID" "ID不合法" H_none)
  else
  found <- First (where_id id) ;;
  match found with
  | Err _ => ret (JSON http.StatusNotFound "NOT_FOUND" "记录不存在" H_none)
  | Ok item => ret (JSON http.StatusOK "SUCCESS" "查询成功" (H_record item))
  end.

(** [UpdateSimDeviceCmd], lines 137-194. *)
Definition UpdateSimDeviceCmd (id : Z) (body : result string SimDeviceCmdBody) : M response :=
  if id <=? 0 then
    ret (JSON http.StatusBadRequest "INVALID_ID" "ID不合法" H_none)
  else
  match body with
  | Err err =>
    ret (JSON http.StatusBadRequest "INVALID_PARAMS" (String.append "参数错误: " err) H_none)
  | Ok req =>
    found <- First (where_id id) ;;
    match found with
    | Err _ => ret (JSON http.StatusNotFound "NOT_FOUND" "记录不存在" H_none)
    | Ok item =>
      let newNS := strings.TrimSpace (req_Namespace req) in
      let newNS := if streq newNS [] then Namespace item else newNS in
      let newDev := strings.TrimSpace (req_DeviceName req) in
      let newDev := if streq newDev [] then DeviceName item else newDev in
      let newCmd := strings.TrimSpace (req_Command req) in
      let newCmd := if streq newCmd [] then Command item else newCmd in
      let blankOutput := streq (strings.TrimSpace (req_Output req)) [] in
      looked <- First (where_key newNS newDev newCmd) ;;
      let merge :=
        match looked with
        | Ok other => if negb (ID other =? ID item) then Some other else None
        | Err _ => None
        end in
      match merge with
      | Some other =>
        let upd := {| f_namespace := None; f_device_name := None; f_command := None;
                      f_output := Some (if negb blankOutput then req_Output req else Output item);
                      f_enabled := Some (req_Enabled req) |} in
        r <- WithRetry (Updates other upd) 6 100 ;;
        match r with
        | Err err =>
          ret (JSON http.StatusInternalServerError "MERGE_FAILED"
                 (String.append "合并失败: " (Error err)) H_none)
        | Ok other' =>
          _ <- WithRetry (Delete (ID item)) 6 100 ;;
          ret (JSON http.StatusOK "SUCCESS" "已合并到唯一记录" (H_record other'))
        end
      | None =>
        let update :=
          {| f_namespace := if negb (streq newNS (Namespace item)) then Some newNS else None;
             f_device_name := if negb (streq newDev (DeviceName item)) then Some newDev else None;
             f_command := if negb (streq newCmd (Command item)) then Some newCmd else None;
             f_output := if negb blankOutput then Some (req_Output req) else None;
             f_enabled := Some (req_Enabled req) |} in
        r <- WithRetry (Updates item update) 6 100 ;;
        match r with
        | Err err =>
          ret (JSON http.StatusInternalServerError "UPDATE_FAILED"
                 (String.append "更新失败: " (Error err)) H_none)
        | Ok item' =>
          ret (JSON http.StatusOK "SUCCESS" "更新成功" (H_record item'))
        end
      end
    end
  end.

(** [DeleteSimDeviceCmd], lines 197-211. *)
Definition DeleteSimDeviceCmd (id : Z) : M response :=
  if id <=? 0 then
    ret (JSON http.StatusBadRequest "INVALID_ID" "ID不合法" H_none)
  else
  r <- WithRetry (Delete id) 6 100 ;;
  match r with
  | Err err =>
    ret (JSON http.StatusInternalServerError "DELETE_FAILED"
           (String.append "删除失败: " (Error err)) H_none)
  | Ok _ => ret (JSON http.StatusOK "SUCCESS" "删除成功" H_none)
  end.

(** The lines of the disambiguation block, lines 265-270. *)
Definition which_lines (candidates : list SimDeviceCommand) : list gostring :=
  [str "which command do you mean?"]
  ++ map (fun it => str " -- " ++ strings.TrimSpace (Command it)) candidates.

(** The answer of [MatchSimDeviceCmd] after the scan, lines 256-273. *)
Definition answer (exact : option SimDeviceCommand) (candidates : list SimDeviceCommand) : response :=
  match exact with
  | Some it => JSON http.StatusOK "SUCCESS" "exact" (H_match "exact" (Output it))
  | None =>
    match candidates with
    | [c] => JSON http.StatusOK "SUCCESS" "partial_single" (H_match "partial_single" (Output c))
    | _ :: _ :: _ =>
      JSON http.StatusOK "SUCCESS" "partial_multi"
        (H_match "partial_multi" (strings.Join (which_lines candidates) [10]))
    | [] => JSON http.StatusOK "SUCCESS" "none" (H_match "none" (str "unspport command"))
    end
  end.

(** [MatchSimDeviceCmd], lines 214-274. *)
Definition MatchSimDeviceCmd (To_LowerCase : rune -> rune)
  (body : result string MatchBody) : M response :=
  match body with
  | Err err =>
    ret (JSON http.StatusBadRequest "INVALID_PARAMS" (String.append "参数错误: " err) H_none)
  | Ok req =>
    let ns := strings.TrimSpace (m_Namespace req) in
    let dev := strings.TrimSpace (m_DeviceName req) in
    let input := strings.TrimSpace (m_Command req) in
    if streq ns [] || streq dev [] || streq input [] then
      ret (JSON http.StatusBadRequest "MISSING_FIELDS"
             "namespace、device_name 与 command 不能为空" H_none)
    else
    found <- Find (where_device ns dev (m_EnabledOnly req)) ;;
    match found with
    | Err err =>
      ret (JSON http.StatusInternalServerError "DB_ERROR"
             (String.append "查询失败: " (Error err)) H_none)
    | Ok items =>
      let inNorm := normalizeCommand To_LowerCase input in
      let (exact, candidates) := scan To_LowerCase inNorm input items [] in
      ret (answer exact candidates)
    end
  end.

(** The answer of [ListSimDeviceCmds], whose [data] is the list of items (none
    on failure). *)
Record list_response := {
  l_status : Z;
  l_code : string;
  l_message : string;
  l_data : option (list SimDeviceCommand)
}.

(** The conditions [ListSimDeviceCmds] adds to its query, lines 97-110: each
    one only when its parameter is not blank, the one on [enabled] only for
    the values "true" and "false". *)
Definition where_list (ns dev enabledQ : gostring) (r : SimDeviceCommand) : bool :=
  (if negb (streq ns []) then streq (Namespace r) ns else true)
  && (if negb (streq dev []) then streq (DeviceName r) dev else true)
  && (if negb (streq enabledQ []) then
        if streq enabledQ (str "true") then Enabled r
        else if streq enabledQ (str "false") then negb (Enabled r)
        else true
      else true).

(** [ListSimDeviceCmds], lines 89-117.  The arguments are the query
    parameters [namespace], [device_name] and [enabled] as [c.Query] yields
    them (empty when absent). *)
Definition ListSimDeviceCmds (namespace device_name enabled : gostring) : M list_response :=
  let ns := strings.TrimSpace namespace in
  let dev := strings.TrimSpace device_name in
  let enabledQ := strings.TrimSpace enabled in
  found <- FindOrdered (where_list ns dev enabledQ) ;;
  match found with
  | Err err =>
    ret {| l_status := http.StatusInternalServerError; l_code := "LIST_FAILED";
           l_message := String.append "查询失败: " (Error err); l_data := None |}
  | Ok items =>
    ret {| l_status := http.StatusOK; l_code := "SUCCESS";
           l_message := "查询成功"; l_data := Some items |}
  end.

End handler.
Import handler.

(** ** Specification-side notions *)

(** The case tables cut down to ASCII, for concrete runs: no rune above
    [MaxASCII] has a case mapping. *)
Definition ascii_case_only : rune -> rune := fun r => r.

(** No contention lies ahead of the store. *)
Definition Quiet (db : DB) : Prop := busy db = [].

(** The uniqueness invariant of the data model, as the store compares keys:
    no two rows of a namespace and device have commands equal under
    [LOWER]. *)
Fixpoint unique_keys (l : list SimDeviceCommand) : bool :=
  match l with
  | [] => true
  | r :: t =>
    negb (existsb (where_key (Namespace r) (DeviceName r) (Command r)) t)
    && unique_keys t
  end.

(** A well-keyed store: the ids are distinct and below the next id the
    store assigns, and the uniqueness invariant holds. *)
Definition well_keyed (db : DB) : Prop :=
  NoDup (map ID (rows db))
  /\ Forall (fun r => ID r < next_id db) (rows db)
  /\ unique_keys (rows db) = true.

(** A word: a non-empty run of runes none of which is white space. *)
Definition is_word (w : gostring) : Prop :=
  w <> [] /\ Forall (fun r => unicode.IsSpace r = false) w.

(** Footprints: a relation between the rows before and after, closed under
    doing nothing and under sequencing, is kept by a handler as soon as its
    writes keep it, whatever contention the store meets. *)
Definition keeps (Rr : list SimDeviceCommand -> list SimDeviceCommand -> Prop)
  {A} (m : M A) : Prop :=
  forall db, Rr (rows db) (rows (snd (m db))).

(** ** Sample data for the concrete runs *)

Definition empty_db : DB :=
  {| rows := []; next_id := 1; clock := 0; busy := [] |}.

Definition sample_row (id : Z) (ns dev cmd out : string) (en : bool) (t : Z)
  : SimDeviceCommand :=
  {| ID := id; Namespace := str ns; DeviceName := str dev; Command := str cmd;
     Output := str out; Enabled := en; UpdatedAt := t |}.

Definition sample_body (ns dev cmd out : string) (en : bool) : SimDeviceCmdBody :=
  {| req_Namespace := str ns; req_DeviceName := str dev; req_Command := str cmd;
     req_Output := str out; req_Enabled := en |}.

Definition sample_match (ns dev cmd : string) (enabledOnly : bool) : MatchBody :=
  {| m_Namespace := str ns; m_DeviceName := str dev; m_Command := str cmd;
     m_EnabledOnly := enabledOnly |}.

(** Records A and B of the merge example. *)
Definition merge_db : DB :=
  {| rows := [sample_row 1 "lab" "r1" "cmd1" "one" true 0;
              sample_row 2 "lab" "r1" "cmd2" "two" true 1];
     next_id := 3; clock := 2; busy := [] |}.

Definition version_db : DB :=
  {| rows := [sample_row 1 "lab" "r1" "show version detail" "D" true 0;
              sample_row 2 "lab" "r1" "Show  Version" "V" true 1;
              sample_row 3 "lab" "r1" "show version" "W" true 2];
     next_id := 4; clock := 3; busy := [] |}.

Definition route_db : DB :=
  {| rows := [sample_row 1 "lab" "r1" "show ip route" "R" true 0;
              sample_row 2 "lab" "r1" "show ip running-config" "C" true 1;
              sample_row 3 "lab" "r1" "show ip interface brief" "I" true 2];
     next_id := 4; clock := 3; busy := [] |}.

(** A create or update body that validation refuses: it did not bind, or one
    of namespace, device and command is blank. *)
Definition refused_body (body : result string SimDeviceCmdBody) : Prop :=
  match body with
  | Err _ => True
  | Ok req =>
    strings.TrimSpace (req_Namespace req) = []
    \/ strings.TrimSpace (req_DeviceName req) = []
    \/ strings.TrimSpace (req_Command req) = []
  end.

Definition refused_match (body : result string MatchBody) : Prop :=
  match body with
  | Err _ => True
  | Ok req =>
    strings.TrimSpace (m_Namespace req) = []
    \/ strings.TrimSpace (m_DeviceName req) = []
    \/ strings.TrimSpace (m_Command req) = []
  end.

(** Ids as the store assigns them: positive. *)
Definition positive_ids (db : DB) : Prop :=
  0 < next_id db /\ Forall (fun r => 0 < ID r) (rows db).


(** * Facts about the string functions *)

Lemma streq_eq (a b : gostring) : streq a b = true <-> a = b.
Proof.
  revert b; induction a as [|x a IH]; intros [|y b]; simpl; split;
    try congruence; try reflexivity.
  - intros Hb. apply andb_true_iff in Hb as [Hx Hs].
    apply Z.eqb_eq in Hx. apply IH in Hs. congruence.
  - intros Hb. injection Hb as -> ->.
    rewrite Z.eqb_refl. simpl. now apply IH.
Qed.

Lemma streq_refl (a : gostring) : streq a a = true.
Proof. now apply streq_eq. Qed.

Lemma streq_neq (a b : gostring) : streq a b = false <-> a <> b.
Proof.
  split.
  - intros Hf Heq. apply streq_eq in Heq. congruence.
  - intros Hn. destruct (streq a b) eqn:E; [|reflexivity].
    apply streq_eq in E. contradiction.
Qed.

Lemma streq_nil (a : gostring) : streq a [] = true <-> a = [].
Proof. apply streq_eq. Qed.

Lemma HasPrefix_app (s p : gostring) :
  strings.HasPrefix s p = true <-> exists rest, s = p ++ rest.
Proof.
  revert s; induction p as [|x p IH]; intros s; simpl.
  - split; [intros _; now exists s | reflexivity].
  - destruct s as [|c s].
    + split; [discriminate | intros [rest Hr]; discriminate].
    + rewrite andb_true_iff, Z.eqb_eq, IH. split.
      * intros [-> [rest ->]]. now exists rest.
      * intros [rest Hr]. injection Hr as -> ->. split; [reflexivity | now exists rest].
Qed.

Lemma TrimLeftSpace_suffix (s : gostring) :
  exists sp, s = sp ++ strings.TrimLeftSpace s
             /\ Forall (fun r => unicode.IsSpace r = true) sp.
Proof.
  induction s as [|c s [sp [Hs Hsp]]]; simpl.
  - exists []. now split.
  - destruct (unicode.IsSpace c) eqn:Ec.
    + exists (c :: sp). split; [simpl; congruence | now constructor].
    + exists []. now split.
Qed.

Lemma TrimLeftSpace_head (s : gostring) :
  match strings.TrimLeftSpace s with
  | [] => True
  | c :: _ => unicode.IsSpace c = false
  end.
Proof.
  induction s as [|c s IH]; simpl; [exact I|].
  destruct (unicode.IsSpace c) eqn:Ec; [exact IH | exact Ec].
Qed.

Lemma TrimLeftSpace_fix (s : gostring) :
  match s with [] => True | c :: _ => unicode.IsSpace c = false end ->
  strings.TrimLeftSpace s = s.
Proof. destruct s as [|c s]; simpl; [reflexivity | now intros ->]. Qed.

Lemma TrimLeftSpace_idem (s : gostring) :
  strings.TrimLeftSpace (strings.TrimLeftSpace s) = strings.TrimLeftSpace s.
Proof. apply TrimLeftSpace_fix, TrimLeftSpace_head. Qed.

Lemma TrimSpace_idem (s : gostring) :
  strings.TrimSpace (strings.TrimSpace s) = strings.TrimSpace s.
Proof.
  unfold strings.TrimSpace.
  set (a := strings.TrimLeftSpace s).
  assert (Ha : strings.TrimLeftSpace (rev (strings.TrimLeftSpace (rev a)))
               = rev (strings.TrimLeftSpace (rev a))).
  { apply TrimLeftSpace_fix.
    destruct (TrimLeftSpace_suffix (rev a)) as [sp [Hsp _]].
    assert (Hd : a = rev (strings.TrimLeftSpace (rev a)) ++ rev sp).
    { rewrite <- rev_app_distr, <- Hsp. now rewrite rev_involutive. }
    destruct (rev (strings.TrimLeftSpace (rev a))) as [|c t]; [exact I|].
    pose proof (TrimLeftSpace_head s) as Hh. fold a in Hh.
    rewrite Hd in Hh. exact Hh. }
  rewrite Ha, rev_involutive, TrimLeftSpace_idem. reflexivity.
Qed.


Lemma Forall_rev_iff {A} (P : A -> Prop) (l : list A) :
  Forall P l -> Forall P (rev l).
Proof.
  intros Hl. apply Forall_forall. intros x Hx.
  apply in_rev in Hx. revert x Hx. now apply Forall_forall.
Qed.

Lemma fields_from_run (w cur s : gostring) :
  Forall (fun r => unicode.IsSpace r = false) w ->
  strings.fields_from cur (w ++ s) = strings.fields_from (rev w ++ cur) s.
Proof.
  intros Hw. revert cur. induction Hw as [|c w Hc Hw IH]; intros cur; simpl.
  - reflexivity.
  - rewrite Hc, IH. now rewrite <- app_assoc.
Qed.

Lemma fields_from_words (s cur : gostring) :
  Forall (fun r => unicode.IsSpace r = false) cur ->
  Forall is_word (strings.fields_from cur s).
Proof.
  revert cur. induction s as [|c s IH]; intros cur Hcur; simpl.
  - destruct cur as [|x cur]; constructor; [|constructor].
    split.
    + intros Hnil. apply (f_equal (@rev rune)) in Hnil.
      rewrite rev_involutive in Hnil. discriminate.
    + now apply Forall_rev_iff.
  - destruct (unicode.IsSpace c) eqn:Ec.
    + destruct cur as [|x cur].
      * apply IH. constructor.
      * constructor; [|apply IH; constructor].
        split.
        -- intros Hnil. apply (f_equal (@rev rune)) in Hnil.
           rewrite rev_involutive in Hnil. discriminate.
        -- now apply Forall_rev_iff.
    + apply IH. now constructor.
Qed.

Lemma Fields_words (s : gostring) : Forall is_word (strings.Fields s).
Proof. apply fields_from_words. constructor. Qed.

Lemma Fields_one_word (w : gostring) :
  is_word w -> strings.Fields w = [w].
Proof.
  intros [Hne Hw]. unfold strings.Fields.
  rewrite <- (app_nil_r w) at 1. rewrite fields_from_run by exact Hw.
  rewrite app_nil_r. simpl.
  destruct (rev w) as [|c t] eqn:Er.
  - apply (f_equal (@rev rune)) in Er. rewrite rev_involutive in Er.
    simpl in Er. contradiction.
  - rewrite <- Er, rev_involutive. reflexivity.
Qed.

Lemma Fields_Join (ws : list gostring) :
  Forall is_word ws -> strings.Fields (strings.Join ws [32]) = ws.
Proof.
  induction 1 as [|w rest Hw Hrest IH]; [reflexivity|].
  simpl. destruct rest as [|w' rest'].
  - now apply Fields_one_word.
  - destruct Hw as [Hne Hw]. unfold strings.Fields in *.
    rewrite fields_from_run by exact Hw. rewrite app_nil_r. simpl.
    destruct (rev w) as [|c t] eqn:Er.
    + apply (f_equal (@rev rune)) in Er. rewrite rev_involutive in Er.
      simpl in Er. contradiction.
    + rewrite <- Er, rev_involutive. f_equal. exact IH.
Qed.

Lemma Join_cons (w w' : gostring) (rest : list gostring) (sep : gostring) :
  strings.Join (w :: w' :: rest) sep = w ++ sep ++ strings.Join (w' :: rest) sep.
Proof. reflexivity. Qed.

Lemma Join_map (f : rune -> rune) (ws : list gostring) (sep : gostring) :
  map f (strings.Join ws sep) = strings.Join (map (map f) ws) (map f sep).
Proof.
  induction ws as [|w rest IH]; [reflexivity|].
  destruct rest as [|w' rest']; [reflexivity|].
  rewrite Join_cons, !map_app, IH. reflexivity.
Qed.

Lemma Join_runes (ws : list gostring) :
  Forall is_word ws ->
  Forall (fun r => unicode.IsSpace r = false \/ r = 32) (strings.Join ws [32]).
Proof.
  induction 1 as [|w rest [_ Hw] Hrest IH]; [constructor|].
  assert (Hw' : Forall (fun r => unicode.IsSpace r = false \/ r = 32) w).
  { eapply Forall_impl; [|exact Hw]. intros r Hr. now left. }
  simpl. destruct rest as [|w' rest']; [exact Hw'|].
  apply Forall_app. split; [exact Hw'|].
  constructor; [now right | exact IH].
Qed.

Lemma Join_ends (ws : list gostring) :
  Forall is_word ws -> ws <> [] ->
  (exists c x, strings.Join ws [32] = c :: x /\ unicode.IsSpace c = false)
  /\ (exists c y, rev (strings.Join ws [32]) = c :: y /\ unicode.IsSpace c = false).
Proof.
  induction 1 as [|w rest Hw Hrest IH]; [contradiction|]. intros _.
  assert (Hhead : exists c x, w = c :: x /\ unicode.IsSpace c = false).
  { destruct Hw as [Hne Hw]. destruct w as [|c x]; [contradiction|].
    exists c, x. split; [reflexivity|]. now inversion Hw. }
  assert (Hlast : exists c y, rev w = c :: y /\ unicode.IsSpace c = false).
  { destruct Hw as [Hne Hw]. apply Forall_rev_iff in Hw.
    destruct (rev w) as [|c y] eqn:Er.
    - apply (f_equal (@rev rune)) in Er. rewrite rev_involutive in Er.
      simpl in Er. contradiction.
    - exists c, y. split; [reflexivity|]. now inversion Hw. }
  destruct rest as [|w' rest']; [now split|].
  destruct IH as [_ [c [y [Hy Hc]]]]; [discriminate|].
  rewrite Join_cons. split.
  - destruct Hhead as [c0 [x [-> Hc0]]]. simpl. eauto.
  - rewrite !rev_app_distr, Hy. simpl. eauto.
Qed.

Lemma TrimSpace_Join (ws : list gostring) :
  Forall is_word ws -> strings.TrimSpace (strings.Join ws [32]) = strings.Join ws [32].
Proof.
  intros Hws. destruct ws as [|w rest]; [reflexivity|].
  destruct (Join_ends (w :: rest) Hws) as [[c [x [Hx Hc]]] [c' [y [Hy Hc']]]];
    [discriminate|].
  unfold strings.TrimSpace.
  rewrite (TrimLeftSpace_fix (strings.Join (w :: rest) [32])) by (rewrite Hx; exact Hc).
  rewrite TrimLeftSpace_fix by (rewrite Hy; exact Hc').
  apply rev_involutive.
Qed.

Lemma replace_from_absent (old new s : gostring) (o : rune) (old' : gostring) :
  old = o :: old' -> ~ In o s -> strings.replace_from 0 old new s = s.
Proof.
  intros -> Hs. induction s as [|c t IH]; [reflexivity|].
  cbn [strings.replace_from strings.HasPrefix].
  destruct (Z.eqb_spec c o) as [->|Hne].
  - exfalso. apply Hs. now left.
  - simpl. f_equal. apply IH. intros Hin. apply Hs. now right.
Qed.

Lemma ReplaceAll_absent (s new : gostring) (o : rune) (old' : gostring) :
  ~ In o s -> strings.ReplaceAll s (o :: old') new = s.
Proof. intros Hs. unfold strings.ReplaceAll. now apply replace_from_absent with o old'. Qed.

(** * The normalizer *)

Lemma IsSpace_letters (r : rune) : 33 <= r <= 127 -> unicode.IsSpace r = false.
Proof.
  intros Hr. unfold unicode.IsSpace, unicode.MaxLatin1.
  replace (r <=? 255) with true by (symmetry; apply Z.leb_le; lia).
  rewrite !(proj2 (Z.eqb_neq _ _)) by lia. reflexivity.
Qed.

Section Normalizer.

Variable To_LowerCase : rune -> rune.

(** What the proofs need of the case tables: the lower case of a rune is
    white space exactly when the rune is, and is its own lower case. *)
Hypothesis case_keeps_space :
  forall r, unicode.MaxASCII < r ->
    unicode.IsSpace (To_LowerCase r) = unicode.IsSpace r.
Hypothesis case_settles :
  forall r, unicode.MaxASCII < r ->
    unicode.ToLower To_LowerCase (To_LowerCase r) = To_LowerCase r.

Lemma ToLower_keeps_space (r : rune) :
  unicode.IsSpace (unicode.ToLower To_LowerCase r) = unicode.IsSpace r.
Proof.
  unfold unicode.ToLower, unicode.MaxASCII in *.
  destruct (Z.leb_spec r 127) as [Hle|Hgt]; [|now apply case_keeps_space].
  destruct (Z.leb_spec 65 r) as [H65|H65]; [|reflexivity].
  destruct (Z.leb_spec r 90) as [H90|H90]; [|reflexivity].
  simpl. rewrite !IsSpace_letters by lia. reflexivity.
Qed.

Lemma ToLower_settles (r : rune) :
  unicode.ToLower To_LowerCase (unicode.ToLower To_LowerCase r)
  = unicode.ToLower To_LowerCase r.
Proof.
  unfold unicode.ToLower at 2 3. unfold unicode.MaxASCII in *.
  destruct (Z.leb_spec r 127) as [Hle|Hgt]; [|now apply case_settles].
  unfold unicode.ToLower, unicode.MaxASCII.
  destruct (Z.leb_spec 65 r) as [H65|H65]; destruct (Z.leb_spec r 90) as [H90|H90];
    simpl.
  - replace (r + 32 <=? 127) with true by (symmetry; apply Z.leb_le; lia).
    replace (r + 32 <=? 90) with false by (symmetry; apply Z.leb_gt; lia).
    now rewrite andb_false_r.
  - replace (r <=? 127) with true by (symmetry; apply Z.leb_le; lia).
    replace (r <=? 90) with false by (symmetry; apply Z.leb_gt; lia).
    now rewrite andb_false_r.
  - replace (r <=? 127) with true by (symmetry; apply Z.leb_le; lia).
    replace (65 <=? r) with false by (symmetry; apply Z.leb_gt; lia).
    reflexivity.
  - lia.
Qed.

Lemma ToLower_word (w : gostring) :
  is_word w -> is_word (strings.ToLower To_LowerCase w).
Proof.
  intros [Hne Hw]. split.
  - destruct w; [contradiction | discriminate].
  - unfold strings.ToLower. apply Forall_map.
    eapply Forall_impl; [|exact Hw]. intros r Hr.
    now rewrite ToLower_keeps_space.
Qed.

Lemma ToLower_words (ws : list gostring) :
  Forall is_word ws -> Forall is_word (map (strings.ToLower To_LowerCase) ws).
Proof.
  intros Hws. apply Forall_map. eapply Forall_impl; [|exact Hws].
  exact ToLower_word.
Qed.

Lemma ToLower_Join (ws : list gostring) :
  strings.ToLower To_LowerCase (strings.Join ws [32])
  = strings.Join (map (strings.ToLower To_LowerCase) ws) [32].
Proof. unfold strings.ToLower. now rewrite Join_map. Qed.

(** A normalized string is a list of lower-cased words joined by single
    spaces. *)
Lemma normalizeCommand_shape (s : gostring) :
  exists ws, Forall is_word ws
    /\ normalizeCommand To_LowerCase s
       = strings.Join (map (strings.ToLower To_LowerCase) ws) [32].
Proof.
  unfold normalizeCommand.
  destruct (streq (strings.TrimSpace s) []) eqn:E.
  - exists []. split; [constructor|]. now apply streq_nil in E.
  - eexists. split; [apply Fields_words|]. apply ToLower_Join.
Qed.

Lemma normalizeCommand_joined (ws : list gostring) :
  Forall is_word ws ->
  normalizeCommand To_LowerCase (strings.Join ws [32])
  = strings.ToLower To_LowerCase (strings.Join ws [32]).
Proof.
  intros Hws. unfold normalizeCommand.
  rewrite TrimSpace_Join by exact Hws.
  destruct (streq (strings.Join ws [32]) []) eqn:E.
  - apply streq_nil in E. now rewrite E.
  - assert (Hno : forall k, unicode.IsSpace k = true -> k <> 32 ->
                    ~ In k (strings.Join ws [32])).
    { intros k Hk Hk32 Hin.
      pose proof (Join_runes ws Hws) as Hr.
      rewrite Forall_forall in Hr. destruct (Hr k Hin); congruence. }
    rewrite (ReplaceAll_absent _ [10] 13 [10]) by (apply Hno; [reflexivity | lia]).
    rewrite (ReplaceAll_absent _ [32] 9 []) by (apply Hno; [reflexivity | lia]).
    now rewrite Fields_Join.
Qed.

(** C9. Normalization is idempotent: for every input string [s],
    [normalizeCommand (normalizeCommand s) = normalizeCommand s], whatever
    case tables satisfy the two conditions above. *)
Theorem normalizeCommand_idempotent (s : gostring) :
  normalizeCommand To_LowerCase (normalizeCommand To_LowerCase s)
  = normalizeCommand To_LowerCase s.
Proof.
  destruct (normalizeCommand_shape s) as [ws [Hws ->]].
  rewrite normalizeCommand_joined by (now apply ToLower_words).
  rewrite ToLower_Join. f_equal.
  rewrite map_map. apply map_ext. intros w.
  unfold strings.ToLower. rewrite map_map. apply map_ext.
  exact ToLower_settles.
Qed.

End Normalizer.

(** The ASCII-only tables meet the two conditions: a run of the theorem. *)
Lemma normalizeCommand_idempotent_run :
  normalizeCommand ascii_case_only
    (normalizeCommand ascii_case_only (str "  Show  IP Interface "))
  = normalizeCommand ascii_case_only (str "  Show  IP Interface ").
Proof.
  apply (normalizeCommand_idempotent ascii_case_only).
  - intros r _. reflexivity.
  - intros r Hr. unfold unicode.ToLower, ascii_case_only.
    destruct (Z.leb_spec r unicode.MaxASCII); [lia | reflexivity].
Defined.

(** * The matcher *)

Lemma normalizeCommand_TrimSpace (To_LowerCase : rune -> rune) (s : gostring) :
  normalizeCommand To_LowerCase (strings.TrimSpace s) = normalizeCommand To_LowerCase s.
Proof. unfold normalizeCommand. now rewrite TrimSpace_idem. Qed.

Lemma prefixMatchByWords_TrimSpace (To_LowerCase : rune -> rune) (s c : gostring) :
  prefixMatchByWords To_LowerCase (strings.TrimSpace s) c
  = prefixMatchByWords To_LowerCase s c.
Proof. unfold prefixMatchByWords. now rewrite normalizeCommand_TrimSpace. Qed.

Lemma prefix_words_positional (inw cand : list gostring) :
  prefix_words inw cand = true <->
  (length inw <= length cand)%nat
  /\ forall i w, nth_error inw i = Some w ->
       exists c rest, nth_error cand i = Some c /\ c = w ++ rest.
Proof.
  revert cand. induction inw as [|w inw IH]; intros cand; simpl.
  - split; [intros _|reflexivity]. split; [lia|].
    intros [|i] w0 Hw0; discriminate.
  - destruct cand as [|c cand]; simpl.
    + split; [discriminate|]. intros [Hlen _]. lia.
    + destruct (strings.HasPrefix c w) eqn:Ep.
      * rewrite IH. apply HasPrefix_app in Ep as [rest0 Hc]. split.
        -- intros [Hlen Hall]. split; [lia|].
           intros [|i] w0 Hw0; simpl in *.
           ++ injection Hw0 as <-. now exists c, rest0.
           ++ now apply Hall.
        -- intros [Hlen Hall]. split; [lia|].
           intros i w0 Hw0. exact (Hall (S i) w0 Hw0).
      * split; [discriminate|]. intros [_ Hall].
        destruct (Hall 0%nat w eq_refl) as [c0 [rest [Hc0 Hrest]]].
        simpl in Hc0. injection Hc0 as <-.
        assert (Ht : strings.HasPrefix c w = true)
          by (apply HasPrefix_app; now exists rest).
        congruence.
Qed.

Section Matcher.

Variable To_LowerCase : rune -> rune.

(** C3. The positional-prefix predicate holds iff, with both sides
    normalized and split into words, the input has at least one word, the
    candidate has at least as many words as the input, and at every index of
    the input's words the candidate's word starts with the input's word as a
    literal prefix; in particular an input with no word matches nothing. *)
Theorem prefixMatchByWords_positional (input candidate : gostring) :
  let inw := strings.Fields (normalizeCommand To_LowerCase input) in
  let cand := strings.Fields (normalizeCommand To_LowerCase candidate) in
  prefixMatchByWords To_LowerCase input candidate = true <->
  inw <> []
  /\ (length inw <= length cand)%nat
  /\ forall i w, nth_error inw i = Some w ->
       exists c rest, nth_error cand i = Some c /\ c = w ++ rest.
Proof.
  intros inw cand. unfold prefixMatchByWords. fold inw cand.
  destruct (Nat.eqb_spec (length inw) 0) as [H0|H0].
  - split; [discriminate|]. intros [Hne _].
    destruct inw; [contradiction | discriminate].
  - destruct (Nat.ltb_spec (length cand) (length inw)) as [Hlt|Hge].
    + split; [discriminate|]. intros [_ [Hlen _]]. lia.
    + rewrite prefix_words_positional. split.
      * intros [Hlen Hall]. repeat split; try assumption.
        intros Hnil. rewrite Hnil in H0. now apply H0.
      * intros [_ Hrest]. exact Hrest.
Qed.

Lemma scan_until_exact (inNorm input : gostring)
  (pre : list SimDeviceCommand) (x : SimDeviceCommand)
  (post acc : list SimDeviceCommand) :
  (forall y, In y pre -> normalizeCommand To_LowerCase (Command y) <> inNorm) ->
  normalizeCommand To_LowerCase (Command x) = inNorm ->
  scan To_LowerCase inNorm input (pre ++ x :: post) acc
  = (Some x,
     acc ++ filter (fun it => prefixMatchByWords To_LowerCase input (Command it)) pre).
Proof.
  intros Hpre Hx. revert acc. induction pre as [|y pre IH]; intros acc; simpl.
  - rewrite Hx, streq_refl. now rewrite app_nil_r.
  - assert (Hy : streq inNorm (normalizeCommand To_LowerCase (Command y)) = false).
    { apply streq_neq. intros Heq. apply (Hpre y); [now left | congruence]. }
    rewrite Hy.
    assert (Hpre' : forall z, In z pre ->
              normalizeCommand To_LowerCase (Command z) <> inNorm)
      by (intros z Hz; apply Hpre; now right).
    destruct (prefixMatchByWords To_LowerCase input (Command y)).
    + rewrite (IH Hpre'). now rewrite <- app_assoc.
    + exact (IH Hpre' acc).
Qed.

Lemma scan_no_exact (inNorm input : gostring) (items acc : list SimDeviceCommand) :
  (forall y, In y items -> normalizeCommand To_LowerCase (Command y) <> inNorm) ->
  scan To_LowerCase inNorm input items acc
  = (None,
     acc ++ filter (fun it => prefixMatchByWords To_LowerCase input (Command it)) items).
Proof.
  revert acc. induction items as [|y items IH]; intros acc Hall; simpl.
  - now rewrite app_nil_r.
  - assert (Hy : streq inNorm (normalizeCommand To_LowerCase (Command y)) = false).
    { apply streq_neq. intros Heq. apply (Hall y); [now left | congruence]. }
    rewrite Hy.
    assert (Hall' : forall z, In z items ->
              normalizeCommand To_LowerCase (Command z) <> inNorm)
      by (intros z Hz; apply Hall; now right).
    destruct (prefixMatchByWords To_LowerCase input (Command y)).
    + rewrite (IH _ Hall'). now rewrite <- app_assoc.
    + exact (IH acc Hall').
Qed.

(** The part of [MatchSimDeviceCmd] after validation, when the store
    answers the query. *)
Lemma MatchSimDeviceCmd_answers (db : DB) (req : MatchBody) :
  strings.TrimSpace (m_Namespace req) <> [] ->
  strings.TrimSpace (m_DeviceName req) <> [] ->
  strings.TrimSpace (m_Command req) <> [] ->
  hd false (busy db) = false ->
  fst (MatchSimDeviceCmd To_LowerCase (Ok req) db)
  = let (exact, candidates) :=
      scan To_LowerCase (normalizeCommand To_LowerCase (m_Command req))
        (strings.TrimSpace (m_Command req))
        (filter (where_device (strings.TrimSpace (m_Namespace req))
                   (strings.TrimSpace (m_DeviceName req)) (m_EnabledOnly req))
           (rows db)) [] in
    answer exact candidates.
Proof.
  intros Hns Hdev Hcmd Hbusy. unfold MatchSimDeviceCmd.
  apply streq_neq in Hns, Hdev, Hcmd. rewrite Hns, Hdev, Hcmd. simpl.
  rewrite normalizeCommand_TrimSpace.
  unfold bind, Find, call, ret.
  destruct (busy db) as [|[|] b]; simpl in *; try discriminate;
    now destruct (scan _ _ _ _ _).
Qed.

(** C4. When a record selected for the device normalizes to the normalized
    input, the answer is "exact" with the output of the first such record in
    the order the store returned them: the records after it are not looked
    at, and partial matches met before it do not change the answer. *)
Theorem MatchSimDeviceCmd_exact_first (db : DB) (req : MatchBody)
  (pre : list SimDeviceCommand) (x : SimDeviceCommand) (post : list SimDeviceCommand) :
  strings.TrimSpace (m_Namespace req) <> [] ->
  strings.TrimSpace (m_DeviceName req) <> [] ->
  strings.TrimSpace (m_Command req) <> [] ->
  hd false (busy db) = false ->
  filter (where_device (strings.TrimSpace (m_Namespace req))
            (strings.TrimSpace (m_DeviceName req)) (m_EnabledOnly req)) (rows db)
  = pre ++ x :: post ->
  (forall y, In y pre ->
     normalizeCommand To_LowerCase (Command y)
     <> normalizeCommand To_LowerCase (m_Command req)) ->
  normalizeCommand To_LowerCase (Command x)
  = normalizeCommand To_LowerCase (m_Command req) ->
  fst (MatchSimDeviceCmd To_LowerCase (Ok req) db)
  = JSON 200 "SUCCESS" "exact" (H_match "exact" (Output x)).
Proof.
  intros Hns Hdev Hcmd Hbusy Hitems Hpre Hx.
  rewrite MatchSimDeviceCmd_answers by assumption.
  rewrite Hitems, (scan_until_exact _ _ pre x post [] Hpre Hx).
  reflexivity.
Qed.

(** C5. When no selected record normalizes to the normalized input, the
    answer depends only on the records that positional-prefix-match, in scan
    order: none gives "none" with the text "unspport command"; one gives
    "partial_single" with its output; several give "partial_multi" with the
    line "which command do you mean?" followed by one line " -- " plus the
    trimmed command per match, joined by newlines. *)
Theorem MatchSimDeviceCmd_partial (db : DB) (req : MatchBody) :
  let items :=
    filter (where_device (strings.TrimSpace (m_Namespace req))
              (strings.TrimSpace (m_DeviceName req)) (m_EnabledOnly req)) (rows db) in
  strings.TrimSpace (m_Namespace req) <> [] ->
  strings.TrimSpace (m_DeviceName req) <> [] ->
  strings.TrimSpace (m_Command req) <> [] ->
  hd false (busy db) = false ->
  (forall y, In y items ->
     normalizeCommand To_LowerCase (Command y)
     <> normalizeCommand To_LowerCase (m_Command req)) ->
  fst (MatchSimDeviceCmd To_LowerCase (Ok req) db)
  = match filter (fun it => prefixMatchByWords To_LowerCase (m_Command req) (Command it))
            items with
    | [] => JSON 200 "SUCCESS" "none" (H_match "none" (str "unspport command"))
    | [c] => JSON 200 "SUCCESS" "partial_single" (H_match "partial_single" (Output c))
    | cs =>
      JSON 200 "SUCCESS" "partial_multi"
        (H_match "partial_multi"
           (strings.Join
              (str "which command do you mean?"
               :: map (fun it => str " -- " ++ strings.TrimSpace (Command it)) cs)
              [10]))
    end.
Proof.
  intros items Hns Hdev Hcmd Hbusy Hnone.
  rewrite MatchSimDeviceCmd_answers by assumption.
  fold items. rewrite (scan_no_exact _ _ items [] Hnone). simpl app.
  rewrite (filter_ext _ _ (fun it => prefixMatchByWords_TrimSpace _ (m_Command req) (Command it))).
  destruct (filter _ items) as [|c [|c' cs]]; reflexivity.
Qed.

(** C10. Matching is read-only: whatever the request and the answer, the
    rows of the store, the next key and the clock are afterwards what they
    were; no record is written, created or deleted. *)
Theorem MatchSimDeviceCmd_read_only (body : result string MatchBody) (db : DB) :
  let db' := snd (MatchSimDeviceCmd To_LowerCase body db) in
  rows db' = rows db /\ next_id db' = next_id db /\ clock db' = clock db.
Proof.
  unfold MatchSimDeviceCmd. destruct body as [req|err]; [|now simpl].
  destruct (_ || _ || _); [now simpl|].
  unfold bind, Find, call, ret.
  destruct (busy db) as [|[|] b]; simpl;
    try destruct (scan _ _ _ _ _); simpl; auto.
Qed.

End Matcher.

(** * The store *)

Lemma where_key_eq (ns dev cmd : gostring) (r : SimDeviceCommand) :
  where_key ns dev cmd r = true <->
  Namespace r = ns /\ DeviceName r = dev /\ LOWER (Command r) = LOWER cmd.
Proof.
  unfold where_key. rewrite !andb_true_iff, !streq_eq. tauto.
Qed.

Lemma where_key_LOWER (ns dev c1 c2 : gostring) (r : SimDeviceCommand) :
  LOWER c1 = LOWER c2 -> where_key ns dev c1 r = where_key ns dev c2 r.
Proof. intros Hc. unfold where_key. now rewrite Hc. Qed.

Lemma where_key_assign (ns dev cmd : gostring) (upd : fields) (now : Z)
  (r : SimDeviceCommand) :
  f_namespace upd = None -> f_device_name upd = None -> f_command upd = None ->
  where_key ns dev cmd (assign upd now r) = where_key ns dev cmd r.
Proof. intros Hn Hd Hc. unfold where_key, assign. simpl. now rewrite Hn, Hd, Hc. Qed.

Lemma find_where_id (id : Z) (l : list SimDeviceCommand) (r : SimDeviceCommand) :
  find (where_id id) l = Some r -> In r l /\ ID r = id.
Proof.
  intros Hf. apply find_some in Hf as [Hin Hid]. split; [exact Hin|].
  now apply Z.eqb_eq in Hid.
Qed.

Lemma filter_map_commute {A} (p : A -> bool) (g : A -> A) (l : list A) :
  (forall x, p (g x) = p x) -> filter p (map g l) = map g (filter p l).
Proof.
  intros Hp. induction l as [|x l IH]; [reflexivity|].
  simpl. rewrite Hp. destruct (p x); simpl; now rewrite IH.
Qed.

Lemma filter_none {A} (p : A -> bool) (l : list A) :
  find p l = None -> filter p l = [].
Proof.
  induction l as [|x l IH]; [reflexivity|]. simpl.
  destruct (p x); [discriminate | exact IH].
Qed.

Lemma filter_all {A} (p : A -> bool) (l : list A) :
  (forall x, In x l -> p x = true) -> filter p l = l.
Proof.
  induction l as [|x l IH]; intros Hall; [reflexivity|]. simpl.
  rewrite (Hall x) by now left. f_equal. apply IH. intros y Hy. apply Hall. now right.
Qed.

Lemma find_filter_head {A} (p : A -> bool) (l : list A) (x : A) (t : list A) :
  filter p l = x :: t -> find p l = Some x.
Proof.
  induction l as [|y l IH]; [discriminate|]. simpl.
  destruct (p y); [now intros [= -> _] | exact IH].
Qed.

(** Under the uniqueness invariant a key selects at most one row. *)
Lemma unique_keys_filter (ns dev cmd : gostring) (l : list SimDeviceCommand) :
  unique_keys l = true ->
  filter (where_key ns dev cmd) l = []
  \/ exists r, filter (where_key ns dev cmd) l = [r].
Proof.
  induction l as [|r t IH]; intros Hu; [now left|].
  simpl in Hu. apply andb_true_iff in Hu as [Hr Ht].
  apply negb_true_iff in Hr. simpl.
  destruct (where_key ns dev cmd r) eqn:Er; [|now apply IH].
  right. exists r. f_equal.
  apply filter_none. destruct (find (where_key ns dev cmd) t) as [x|] eqn:Ef;
    [|reflexivity].
  exfalso. apply find_some in Ef as [Hin Hx].
  assert (He : existsb (where_key (Namespace r) (DeviceName r) (Command r)) t = true).
  { apply existsb_exists. exists x. split; [exact Hin|].
    apply where_key_eq in Er as [Hn [Hd Hc]]. apply where_key_eq in Hx as [Hn' [Hd' Hc']].
    apply where_key_eq. repeat split; congruence. }
  congruence.
Qed.

Lemma unique_keys_find (ns dev cmd : gostring) (l : list SimDeviceCommand)
  (other : SimDeviceCommand) :
  unique_keys l = true -> In other l -> where_key ns dev cmd other = true ->
  find (where_key ns dev cmd) l = Some other.
Proof.
  intros Hu Hin Hk.
  assert (Hf : In other (filter (where_key ns dev cmd) l))
    by (apply filter_In; now split).
  destruct (unique_keys_filter ns dev cmd l Hu) as [E|[r E]]; rewrite E in Hf.
  - contradiction.
  - destruct Hf as [->|[]]. now apply find_filter_head with [].
Qed.

Section Footprint.

Variable Rr : list SimDeviceCommand -> list SimDeviceCommand -> Prop.
Hypothesis Rr_refl : forall l, Rr l l.
Hypothesis Rr_trans : forall l1 l2 l3, Rr l1 l2 -> Rr l2 l3 -> Rr l1 l3.

Lemma keeps_ret {A} (a : A) : keeps Rr (ret a).
Proof. intros db. apply Rr_refl. Qed.

Lemma keeps_bind {A B} (m : M A) (k : A -> M B) :
  keeps Rr m -> (forall a, keeps Rr (k a)) -> keeps Rr (bind m k).
Proof.
  intros Hm Hk db. unfold bind. specialize (Hm db).
  destruct (m db) as [a db1]. simpl in Hm.
  eapply Rr_trans; [exact Hm | apply Hk].
Qed.

Lemma keeps_call {A} (op : M (result error A)) :
  keeps Rr op -> keeps Rr (call op).
Proof.
  intros Hop db. unfold call.
  destruct (busy db) as [|[|] b]; simpl; [apply Hop | apply Rr_refl |].
  exact (Hop (with_busy b db)).
Qed.

Lemma keeps_retry {A} (fn : M (result error A)) (more : nat) (delay : Z) :
  keeps Rr fn -> keeps Rr (retry fn more delay).
Proof.
  intros Hfn. induction more as [|k IH]; intros db; simpl;
    specialize (Hfn db); destruct (fn db) as [[a|[|]] db1]; simpl in *;
    try exact Hfn.
  eapply Rr_trans; [exact Hfn|]. exact (IH (tick delay db1)).
Qed.

Lemma keeps_WithRetry {A} (fn : M (result error A)) (attempts : nat) (delay : Z) :
  keeps Rr fn -> keeps Rr (WithRetry fn attempts delay).
Proof. apply keeps_retry. Qed.

Lemma keeps_First (cond : SimDeviceCommand -> bool) : keeps Rr (First cond).
Proof.
  apply keeps_call. intros db. destruct (find cond (rows db)); apply Rr_refl.
Qed.

End Footprint.

(** On a quiet store a retried write is its first attempt. *)
Lemma call_quiet {A} (op : M (result error A)) (db : DB) :
  Quiet db -> call op db = op db.
Proof. unfold Quiet, call. now intros ->. Qed.

Lemma First_quiet (cond : SimDeviceCommand -> bool) (db : DB) :
  Quiet db ->
  First cond db
  = (match find cond (rows db) with
     | Some r => Ok r
     | None => Err ErrRecordNotFound
     end, db).
Proof.
  intros Hq. unfold First. rewrite call_quiet by exact Hq.
  now destruct (find cond (rows db)).
Qed.

Lemma WithRetry_quiet {A} (op : M (result error A)) (attempts : nat) (delay : Z)
  (db : DB) (a : A) (db' : DB) :
  Quiet db -> op db = (Ok a, db') ->
  WithRetry (call op) attempts delay db = (Ok a, db').
Proof.
  intros Hq Hop. unfold WithRetry.
  destruct (Nat.pred attempts); simpl; rewrite call_quiet, Hop by exact Hq;
    reflexivity.
Qed.

(** * Create *)

(** Create on a quiet store: the insert when no row has the key, the
    rewrite of output and enabled flag when one has. *)
Lemma CreateSimDeviceCmd_new (db : DB) (req : SimDeviceCmdBody) :
  let ns := strings.TrimSpace (req_Namespace req) in
  let dev := strings.TrimSpace (req_DeviceName req) in
  let cmd := strings.TrimSpace (req_Command req) in
  let r := {| ID := next_id db; Namespace := ns; DeviceName := dev; Command := cmd;
              Output := req_Output req; Enabled := true; UpdatedAt := clock db |} in
  ns <> [] -> dev <> [] -> cmd <> [] ->
  find (where_key ns dev cmd) (rows db) = None ->
  Quiet db ->
  CreateSimDeviceCmd (Ok req) db
  = (JSON 201 "SUCCESS" "创建成功" (H_record r),
     {| rows := rows db ++ [r]; next_id := next_id db + 1;
        clock := clock db + 1; busy := [] |}).
Proof.
  intros ns dev cmd r Hns Hdev Hcmd Hfind Hq. unfold CreateSimDeviceCmd.
  fold ns dev cmd. apply streq_neq in Hns, Hdev, Hcmd.
  rewrite Hns, Hdev, Hcmd. cbn [orb].
  unfold bind. rewrite First_quiet, Hfind by exact Hq.
  unfold Create.
  erewrite WithRetry_quiet; [| exact Hq | reflexivity].
  unfold ret, r. rewrite Hq. now destruct (req_Enabled req).
Qed.

Lemma CreateSimDeviceCmd_existing (db : DB) (req : SimDeviceCmdBody)
  (existing : SimDeviceCommand) :
  let ns := strings.TrimSpace (req_Namespace req) in
  let dev := strings.TrimSpace (req_DeviceName req) in
  let cmd := strings.TrimSpace (req_Command req) in
  let update := {| f_namespace := None; f_device_name := None; f_command := None;
                   f_output := Some (req_Output req); f_enabled := Some true |} in
  ns <> [] -> dev <> [] -> cmd <> [] ->
  find (where_key ns dev cmd) (rows db) = Some existing ->
  Quiet db ->
  CreateSimDeviceCmd (Ok req) db
  = (JSON 200 "SUCCESS" "已更新现有记录" (H_record (assign update (clock db) existing)),
     {| rows := map (fun r => if where_id (ID existing) r
                              then assign update (clock db) r else r) (rows db);
        next_id := next_id db; clock := clock db + 1; busy := [] |}).
Proof.
  intros ns dev cmd update Hns Hdev Hcmd Hfind Hq. unfold CreateSimDeviceCmd.
  fold ns dev cmd. apply streq_neq in Hns, Hdev, Hcmd.
  rewrite Hns, Hdev, Hcmd. cbn [orb].
  unfold bind. rewrite First_quiet, Hfind by exact Hq.
  unfold Updates.
  erewrite WithRetry_quiet; [| exact Hq | reflexivity].
  unfold ret, update. rewrite Hq. now destruct (req_Enabled req).
Qed.

(** What create can do to the rows, whatever the store meets: nothing, one
    row appended, or the rows of one key rewritten. *)
Lemma CreateSimDeviceCmd_keeps
  (Rr : list SimDeviceCommand -> list SimDeviceCommand -> Prop)
  (body : result string SimDeviceCmdBody) :
  (forall l, Rr l l) ->
  (forall l1 l2 l3, Rr l1 l2 -> Rr l2 l3 -> Rr l1 l3) ->
  (forall req, body = Ok req ->
     forall l id now,
       Rr l (l ++ [{| ID := id;
                      Namespace := strings.TrimSpace (req_Namespace req);
                      DeviceName := strings.TrimSpace (req_DeviceName req);
                      Command := strings.TrimSpace (req_Command req);
                      Output := req_Output req; Enabled := true;
                      UpdatedAt := now |}])) ->
  (forall req, body = Ok req ->
     forall l id now,
       Rr l (map (fun r => if where_id id r
                           then assign {| f_namespace := None; f_device_name := None;
                                          f_command := None;
                                          f_output := Some (req_Output req);
                                          f_enabled := Some true |} now r
                           else r) l)) ->
  keeps Rr (CreateSimDeviceCmd body).
Proof.
  intros Hrefl Htrans Hins Hupd. unfold CreateSimDeviceCmd.
  destruct body as [req|err]; [|now apply keeps_ret].
  destruct (_ || _ || _); [now apply keeps_ret|].
  assert (He : (if negb (req_Enabled req) then true else req_Enabled req) = true)
    by now destruct (req_Enabled req).
  rewrite He.
  apply keeps_bind; [assumption | now apply keeps_First |].
  intros [existing|e].
  - apply keeps_bind; [assumption | | intros [x|e']; now apply keeps_ret].
    apply keeps_WithRetry; [assumption..|]. apply keeps_call; [assumption|].
    intros db. simpl. now apply Hupd.
  - apply keeps_bind; [assumption | | intros [x|e']; now apply keeps_ret].
    apply keeps_WithRetry; [assumption..|]. apply keeps_call; [assumption|].
    intros db. simpl. now apply Hins.
Qed.

(** C7. A create that inserts (valid fields, no row of that key, a quiet
    store) answers 201 with a record whose enabled flag is true, whether the
    caller sent the flag true or false; and whatever the request and the
    store, every row found after a create is a row that was there before or
    is enabled: create never leaves a record it wrote disabled. *)
Theorem CreateSimDeviceCmd_enabled (db : DB) (req : SimDeviceCmdBody) :
  (strings.TrimSpace (req_Namespace req) <> [] ->
   strings.TrimSpace (req_DeviceName req) <> [] ->
   strings.TrimSpace (req_Command req) <> [] ->
   find (where_key (strings.TrimSpace (req_Namespace req))
           (strings.TrimSpace (req_DeviceName req))
           (strings.TrimSpace (req_Command req))) (rows db) = None ->
   Quiet db ->
   exists r,
     fst (CreateSimDeviceCmd (Ok req) db) = JSON 201 "SUCCESS" "创建成功" (H_record r)
     /\ rows (snd (CreateSimDeviceCmd (Ok req) db)) = rows db ++ [r]
     /\ Enabled r = true)
  /\ (forall r, In r (rows (snd (CreateSimDeviceCmd (Ok req) db))) ->
        In r (rows db) \/ Enabled r = true).
Proof.
  split.
  - intros Hns Hdev Hcmd Hfind Hq.
    rewrite (CreateSimDeviceCmd_new db req Hns Hdev Hcmd Hfind Hq).
    eexists. simpl. repeat split.
  - apply (CreateSimDeviceCmd_keeps
             (fun l l' => forall r, In r l' -> In r l \/ Enabled r = true)).
    + intros l r Hr. now left.
    + intros l1 l2 l3 H12 H23 r Hr.
      destruct (H23 r Hr) as [H2|He]; [now apply H12 | now right].
    + intros req' _ l id now r Hr. apply in_app_or in Hr as [Hr|[<-|[]]];
        [now left | now right].
    + intros req' _ l id now r Hr. apply in_map_iff in Hr as [x [Hx Hin]].
      destruct (where_id id x); [right; now subst r | left; now subst r].
Qed.

Lemma filter_nil_find {A} (p : A -> bool) (l : list A) :
  filter p l = [] -> find p l = None.
Proof.
  induction l as [|x l IH]; [reflexivity|]. simpl.
  destruct (p x); [discriminate | exact IH].
Qed.

Lemma LOWER_nil (s : gostring) : LOWER s = [] -> s = [].
Proof. destruct s; [reflexivity | discriminate]. Qed.

(** One create on a quiet store: the key of the request, which selected at
    most one row, selects exactly one afterwards, with the request's
    output. *)
Lemma CreateSimDeviceCmd_key_rows (db : DB) (req : SimDeviceCmdBody) :
  let key := where_key (strings.TrimSpace (req_Namespace req))
               (strings.TrimSpace (req_DeviceName req))
               (strings.TrimSpace (req_Command req)) in
  strings.TrimSpace (req_Namespace req) <> [] ->
  strings.TrimSpace (req_DeviceName req) <> [] ->
  strings.TrimSpace (req_Command req) <> [] ->
  Quiet db ->
  (filter key (rows db) = [] \/ exists e, filter key (rows db) = [e]) ->
  Quiet (snd (CreateSimDeviceCmd (Ok req) db))
  /\ exists r, filter key (rows (snd (CreateSimDeviceCmd (Ok req) db))) = [r]
               /\ Output r = req_Output req.
Proof.
  intros key Hns Hdev Hcmd Hq [Hnone|[e He]].
  - rewrite (CreateSimDeviceCmd_new db req Hns Hdev Hcmd (filter_nil_find _ _ Hnone) Hq).
    simpl. split; [reflexivity|].
    rewrite filter_app, Hnone. simpl. fold key.
    assert (Hk : key {| ID := next_id db;
                        Namespace := strings.TrimSpace (req_Namespace req);
                        DeviceName := strings.TrimSpace (req_DeviceName req);
                        Command := strings.TrimSpace (req_Command req);
                        Output := req_Output req; Enabled := true;
                        UpdatedAt := clock db |} = true)
      by (apply where_key_eq; now simpl).
    rewrite Hk. eexists. split; reflexivity.
  - rewrite (CreateSimDeviceCmd_existing db req e Hns Hdev Hcmd
               (find_filter_head _ _ _ _ He) Hq).
    simpl. split; [reflexivity|]. fold key.
    rewrite filter_map_commute.
    + rewrite He. simpl. unfold where_id. rewrite Z.eqb_refl.
      eexists. split; reflexivity.
    + intros x. destruct (where_id (ID e) x); [|reflexivity].
      now apply where_key_assign.
Qed.

(** C1 (amended). Two creates for one namespace and device whose commands
    are equal once trimmed and compared as the store compares them (case
    folded by [LOWER]; inner white space counts) leave, on a quiet store that
    satisfies the uniqueness invariant, exactly one row of that key, and its
    output is the output of the second create. *)
Theorem CreateSimDeviceCmd_twice (db : DB) (ns dev c1 c2 o1 o2 : gostring) (e1 e2 : bool) :
  let req1 := {| req_Namespace := ns; req_DeviceName := dev; req_Command := c1;
                 req_Output := o1; req_Enabled := e1 |} in
  let req2 := {| req_Namespace := ns; req_DeviceName := dev; req_Command := c2;
                 req_Output := o2; req_Enabled := e2 |} in
  let db2 := snd (CreateSimDeviceCmd (Ok req2) (snd (CreateSimDeviceCmd (Ok req1) db))) in
  strings.TrimSpace ns <> [] ->
  strings.TrimSpace dev <> [] ->
  strings.TrimSpace c1 <> [] ->
  LOWER (strings.TrimSpace c1) = LOWER (strings.TrimSpace c2) ->
  Quiet db ->
  unique_keys (rows db) = true ->
  exists r,
    filter (where_key (strings.TrimSpace ns) (strings.TrimSpace dev) (strings.TrimSpace c1))
      (rows db2) = [r]
    /\ Output r = o2.
Proof.
  intros req1 req2 db2 Hns Hdev Hc1 Hlow Hq Hu.
  assert (Hc2 : strings.TrimSpace c2 <> []).
  { intros Hnil. rewrite Hnil in Hlow. now apply LOWER_nil in Hlow. }
  assert (Hext : forall x,
            where_key (strings.TrimSpace ns) (strings.TrimSpace dev) (strings.TrimSpace c1) x
            = where_key (strings.TrimSpace ns) (strings.TrimSpace dev) (strings.TrimSpace c2) x)
    by (intros x; now apply where_key_LOWER).
  destruct (CreateSimDeviceCmd_key_rows db req1 Hns Hdev Hc1 Hq
              (unique_keys_filter _ _ _ _ Hu)) as [Hq1 [r1 [Hr1 _]]].
  simpl in Hr1. rewrite (filter_ext _ _ Hext) in Hr1.
  destruct (CreateSimDeviceCmd_key_rows _ req2 Hns Hdev Hc2 Hq1
              (or_intror (ex_intro _ r1 Hr1))) as [_ [r2 [Hr2 Ho2]]].
  exists r2. split; [|exact Ho2].
  rewrite (filter_ext _ _ Hext). exact Hr2.
Qed.

(** * Get, update and delete *)

Lemma GetSimDeviceCmd_absent (db : DB) (id : Z) :
  0 < id -> find (where_id id) (rows db) = None ->
  GetSimDeviceCmd id db
  = (JSON 404 "NOT_FOUND" "记录不存在" H_none, with_busy (tl (busy db)) db).
Proof.
  intros Hid Hfind. unfold GetSimDeviceCmd.
  replace (id <=? 0) with false by (symmetry; apply Z.leb_gt; lia).
  unfold bind, First, call, ret. destruct db as [l n c b]. simpl in *.
  destruct b as [|[|] b]; simpl; rewrite ?Hfind; reflexivity.
Qed.

Lemma find_where_id_deleted (id : Z) (l : list SimDeviceCommand) :
  find (where_id id) (filter (fun r => negb (where_id id r)) l) = None.
Proof.
  induction l as [|x l IH]; [reflexivity|]. simpl.
  destruct (where_id id x) eqn:Ex; simpl; [exact IH|].
  now rewrite Ex.
Qed.


(** * The uniqueness invariant is kept *)

Lemma bool_iff (a b : bool) : (a = true <-> b = true) -> a = b.
Proof.
  destruct a, b; intros [H1 H2]; try reflexivity.
  - symmetry. now apply H1.
  - now apply H2.
Qed.

Lemma where_key_sym (a b : SimDeviceCommand) :
  where_key (Namespace a) (DeviceName a) (Command a) b
  = where_key (Namespace b) (DeviceName b) (Command b) a.
Proof.
  apply bool_iff. rewrite !where_key_eq. split; intros [Hn [Hd Hc]]; auto.
Qed.

Lemma where_key_same_fields (ns dev cmd : gostring) (a b : SimDeviceCommand) :
  Namespace a = Namespace b -> DeviceName a = DeviceName b ->
  LOWER (Command a) = LOWER (Command b) ->
  where_key ns dev cmd a = where_key ns dev cmd b.
Proof. intros Hn Hd Hc. unfold where_key. now rewrite Hn, Hd, Hc. Qed.

Lemma existsb_false {A} (p : A -> bool) (l : list A) :
  existsb p l = false <-> forall x, In x l -> p x = false.
Proof.
  induction l as [|y l IH]; simpl.
  - split; [intros _ x [] | reflexivity].
  - rewrite orb_false_iff, IH. split.
    + intros [Hy Hl] x [<-|Hx]; auto.
    + intros Hall. split; [apply Hall; now left | intros x Hx; apply Hall; now right].
Qed.

Lemma unique_keys_cons (r : SimDeviceCommand) (t : list SimDeviceCommand) :
  unique_keys (r :: t) = true <->
  (forall x, In x t -> where_key (Namespace r) (DeviceName r) (Command r) x = false)
  /\ unique_keys t = true.
Proof.
  simpl. rewrite andb_true_iff, negb_true_iff, existsb_false. reflexivity.
Qed.

Lemma unique_keys_snoc (l : list SimDeviceCommand) (r : SimDeviceCommand) :
  unique_keys l = true ->
  (forall x, In x l -> where_key (Namespace r) (DeviceName r) (Command r) x = false) ->
  unique_keys (l ++ [r]) = true.
Proof.
  induction l as [|y l IH]; intros Hu Hr; [reflexivity|].
  apply unique_keys_cons in Hu as [Hy Hl].
  change ((y :: l) ++ [r]) with (y :: (l ++ [r])). apply unique_keys_cons. split.
  - intros x Hx. apply in_app_or in Hx as [Hx|[<-|[]]]; [now apply Hy|].
    rewrite where_key_sym. apply Hr. now left.
  - apply IH; [exact Hl|]. intros x Hx. apply Hr. now right.
Qed.

Lemma unique_keys_map (g : SimDeviceCommand -> SimDeviceCommand)
  (l : list SimDeviceCommand) :
  (forall x, Namespace (g x) = Namespace x /\ DeviceName (g x) = DeviceName x
             /\ Command (g x) = Command x) ->
  unique_keys l = true -> unique_keys (map g l) = true.
Proof.
  intros Hg. induction l as [|y l IH]; intros Hu; [reflexivity|].
  apply unique_keys_cons in Hu as [Hy Hl].
  change (map g (y :: l)) with (g y :: map g l). apply unique_keys_cons.
  split; [|now apply IH].
  intros x Hx. apply in_map_iff in Hx as [z [<- Hz]].
  destruct (Hg y) as [-> [-> ->]]. destruct (Hg z) as [Hn [Hd Hc]].
  rewrite (where_key_same_fields _ _ _ (g z) z) by congruence. now apply Hy.
Qed.

Lemma unique_keys_filter_rows (p : SimDeviceCommand -> bool)
  (l : list SimDeviceCommand) :
  unique_keys l = true -> unique_keys (filter p l) = true.
Proof.
  induction l as [|y l IH]; intros Hu; [reflexivity|].
  apply unique_keys_cons in Hu as [Hy Hl]. simpl.
  destruct (p y); [|now apply IH].
  apply unique_keys_cons. split; [|now apply IH].
  intros x Hx. apply filter_In in Hx as [Hx _]. now apply Hy.
Qed.

(** The row of id [i] is rewritten into one of a key that no other row
    holds. *)
Lemma unique_keys_rewrite (i : Z) (g : SimDeviceCommand -> SimDeviceCommand)
  (ns dev cmd : gostring) (l : list SimDeviceCommand) :
  (forall x, In x l -> ID x = i ->
     Namespace (g x) = ns /\ DeviceName (g x) = dev /\ Command (g x) = cmd) ->
  NoDup (map ID l) ->
  (forall x, In x l -> ID x <> i -> where_key ns dev cmd x = false) ->
  unique_keys l = true ->
  unique_keys (map (fun r => if where_id i r then g r else r) l) = true.
Proof.
  induction l as [|y l IH]; intros Hg Hnd Hfree Hu; [reflexivity|].
  apply unique_keys_cons in Hu as [Hy Hl].
  inversion Hnd as [|? ? Hnotin Hnd']; subst.
  change (map ?f (y :: l)) with (f y :: map f l). cbv beta.
  unfold where_id at 1. destruct (Z.eqb_spec (ID y) i) as [Hi|Hi].
  - assert (Hsame : map (fun r => if where_id i r then g r else r) l = l).
    { rewrite <- (map_id l) at 2. apply map_ext_in. intros x Hx.
      unfold where_id. destruct (Z.eqb_spec (ID x) i) as [Hx'|]; [|reflexivity].
      exfalso. apply Hnotin. rewrite Hi, <- Hx'. now apply in_map. }
    rewrite Hsame. apply unique_keys_cons. split; [|exact Hl].
    intros x Hx. destruct (Hg y (or_introl eq_refl) Hi) as [-> [-> ->]].
    apply Hfree; [now right|].
    intros Hx'. apply Hnotin. rewrite Hi, <- Hx'. now apply in_map.
  - apply unique_keys_cons. split.
    + intros x Hx. apply in_map_iff in Hx as [z [<- Hz]].
      unfold where_id. destruct (Z.eqb_spec (ID z) i) as [Hz'|Hz'].
      * rewrite where_key_sym.
        destruct (Hg z (or_intror Hz) Hz') as [-> [-> ->]].
        apply Hfree; [now left | exact Hi].
      * now apply Hy.
    + apply IH; [| exact Hnd' | | exact Hl].
      * intros x Hx. apply Hg. now right.
      * intros x Hx. apply Hfree. now right.
Qed.

Lemma NoDup_ID_filter (p : SimDeviceCommand -> bool) (l : list SimDeviceCommand) :
  NoDup (map ID l) -> NoDup (map ID (filter p l)).
Proof.
  induction l as [|y l IH]; intros Hnd; [constructor|].
  inversion Hnd as [|? ? Hnotin Hnd']; subst. simpl.
  destruct (p y); [|now apply IH]. simpl. constructor; [|now apply IH].
  intros Hin. apply Hnotin. apply in_map_iff in Hin as [x [Hx Hin]].
  apply filter_In in Hin as [Hin _]. rewrite <- Hx. now apply in_map.
Qed.

Lemma NoDup_ID_same (l : list SimDeviceCommand) (a b : SimDeviceCommand) :
  NoDup (map ID l) -> In a l -> In b l -> ID a = ID b -> a = b.
Proof.
  induction l as [|y l IH]; intros Hnd Ha Hb Hab; [contradiction|].
  inversion Hnd as [|? ? Hnotin Hnd']; subst.
  destruct Ha as [<-|Ha], Hb as [<-|Hb]; auto.
  - exfalso. apply Hnotin. rewrite Hab. now apply in_map.
  - exfalso. apply Hnotin. rewrite <- Hab. now apply in_map.
Qed.

(** Update on a quiet store, the store calls carried out. *)
Lemma UpdateSimDeviceCmd_quiet (db : DB) (id : Z) (req : SimDeviceCmdBody) :
  0 < id -> Quiet db ->
  UpdateSimDeviceCmd id (Ok req) db
  = match find (where_id id) (rows db) with
    | None => (JSON 404 "NOT_FOUND" "记录不存在" H_none, db)
    | Some item =>
      let newNS := if streq (strings.TrimSpace (req_Namespace req)) []
                   then Namespace item else strings.TrimSpace (req_Namespace req) in
      let newDev := if streq (strings.TrimSpace (req_DeviceName req)) []
                    then DeviceName item else strings.TrimSpace (req_DeviceName req) in
      let newCmd := if streq (strings.TrimSpace (req_Command req)) []
                    then Command item else strings.TrimSpace (req_Command req) in
      let blank := streq (strings.TrimSpace (req_Output req)) [] in
      let merged other :=
        let upd := {| f_namespace := None; f_device_name := None; f_command := None;
                      f_output := Some (if negb blank then req_Output req else Output item);
                      f_enabled := Some (req_Enabled req) |} in
        (JSON 200 "SUCCESS" "已合并到唯一记录" (H_record (assign upd (clock db) other)),
         {| rows := filter (fun r => negb (where_id (ID item) r))
                      (map (fun r => if where_id (ID other) r
                                     then assign upd (clock db) r else r) (rows db));
            next_id := next_id db; clock := clock db + 1; busy := [] |}) in
      let updated :=
        let update :=
          {| f_namespace := if negb (streq newNS (Namespace item)) then Some newNS else None;
             f_device_name := if negb (streq newDev (DeviceName item)) then Some newDev else None;
             f_command := if negb (streq newCmd (Command item)) then Some newCmd else None;
             f_output := if negb blank then Some (req_Output req) else None;
             f_enabled := Some (req_Enabled req) |} in
        (JSON 200 "SUCCESS" "更新成功" (H_record (assign update (clock db) item)),
         {| rows := map (fun r => if where_id (ID item) r
                                  then assign update (clock db) r else r) (rows db);
            next_id := next_id db; clock := clock db + 1; busy := [] |}) in
      match find (where_key newNS newDev newCmd) (rows db) with
      | Some other => if negb (ID other =? ID item) then merged other else updated
      | None => updated
      end
    end.
Proof.
  intros Hid Hq. unfold UpdateSimDeviceCmd.
  replace (id <=? 0) with false by (symmetry; apply Z.leb_gt; lia).
  unfold bind. rewrite First_quiet by exact Hq.
  destruct (find (where_id id) (rows db)) as [item|]; [|reflexivity].
  cbv beta iota zeta.
  rewrite First_quiet by exact Hq.
  destruct (find (where_key _ _ _) (rows db)) as [other|].
  - destruct (negb (ID other =? ID item)).
    + unfold Updates. erewrite WithRetry_quiet; [| exact Hq | reflexivity].
      cbv beta iota. unfold Delete.
      erewrite WithRetry_quiet; [| exact Hq | reflexivity].
      unfold ret, with_rows. cbn [rows next_id clock busy]. now rewrite Hq.
    + unfold Updates. erewrite WithRetry_quiet; [| exact Hq | reflexivity].
      unfold ret. now rewrite Hq.
  - unfold Updates. erewrite WithRetry_quiet; [| exact Hq | reflexivity].
    unfold ret. now rewrite Hq.
Qed.

Lemma DeleteSimDeviceCmd_quiet (db : DB) (id : Z) :
  0 < id -> Quiet db ->
  DeleteSimDeviceCmd id db
  = (JSON 200 "SUCCESS" "删除成功" H_none,
     with_rows (filter (fun r => negb (where_id id r)) (rows db)) db).
Proof.
  intros Hid Hq. unfold DeleteSimDeviceCmd.
  replace (id <=? 0) with false by (symmetry; apply Z.leb_gt; lia).
  unfold bind, Delete. erewrite WithRetry_quiet; [| exact Hq | reflexivity].
  reflexivity.
Qed.

Lemma well_keyed_map (db : DB) (g : SimDeviceCommand -> SimDeviceCommand) (c : Z) :
  (forall x, ID (g x) = ID x) ->
  NoDup (map ID (rows db)) ->
  Forall (fun r => ID r < next_id db) (rows db) ->
  unique_keys (map g (rows db)) = true ->
  well_keyed {| rows := map g (rows db); next_id := next_id db; clock := c; busy := [] |}.
Proof.
  intros Hg Hnd Hlt Hu. unfold well_keyed. cbn [rows next_id]. repeat split.
  - rewrite map_map. now rewrite (map_ext _ ID Hg).
  - apply Forall_map. eapply Forall_impl; [|exact Hlt]. intros x Hx. now rewrite Hg.
  - exact Hu.
Qed.

Lemma well_keyed_filter (db db' : DB) (p : SimDeviceCommand -> bool) :
  rows db' = filter p (rows db) -> next_id db' = next_id db ->
  well_keyed db -> well_keyed db'.
Proof.
  intros Hr Hn [Hnd [Hlt Hu]]. unfold well_keyed. rewrite Hr, Hn. repeat split.
  - now apply NoDup_ID_filter.
  - apply Forall_forall. intros x Hx. apply filter_In in Hx as [Hx _].
    rewrite Forall_forall in Hlt. now apply Hlt.
  - now apply unique_keys_filter_rows.
Qed.

Lemma CreateSimDeviceCmd_well_keyed (db : DB) (body : result string SimDeviceCmdBody) :
  Quiet db -> well_keyed db ->
  Quiet (snd (CreateSimDeviceCmd body db))
  /\ well_keyed (snd (CreateSimDeviceCmd body db)).
Proof.
  intros Hq Hw. destruct body as [req|err]; [|now split].
  destruct (streq (strings.TrimSpace (req_Namespace req)) []
            || streq (strings.TrimSpace (req_DeviceName req)) []
            || streq (strings.TrimSpace (req_Command req)) []) eqn:Ev.
  - unfold CreateSimDeviceCmd. rewrite Ev. now split.
  - apply orb_false_iff in Ev as [Ev Hcmd]. apply orb_false_iff in Ev as [Hns Hdev].
    apply streq_neq in Hns, Hdev, Hcmd.
    destruct Hw as [Hnd [Hlt Hu]].
    destruct (find (where_key (strings.TrimSpace (req_Namespace req))
                      (strings.TrimSpace (req_DeviceName req))
                      (strings.TrimSpace (req_Command req))) (rows db))
      as [e|] eqn:Ef.
    + rewrite (CreateSimDeviceCmd_existing db req e Hns Hdev Hcmd Ef Hq).
      split; [reflexivity|]. cbn [snd].
      apply well_keyed_map; try assumption.
      * intros x. now destruct (where_id (ID e) x).
      * apply unique_keys_map; [|exact Hu].
        intros x. now destruct (where_id (ID e) x).
    + rewrite (CreateSimDeviceCmd_new db req Hns Hdev Hcmd Ef Hq).
      split; [reflexivity|]. cbn [snd]. unfold well_keyed. cbn [rows next_id].
      rewrite Forall_forall in Hlt. repeat split.
      * rewrite map_app. cbn [map ID]. apply NoDup_app.
        -- exact Hnd.
        -- repeat constructor. intros [].
        -- intros i Hi [<-|[]]. apply in_map_iff in Hi as [x [Hx Hin]].
           specialize (Hlt x Hin). lia.
      * apply Forall_app. split.
        -- apply Forall_forall. intros x Hx. specialize (Hlt x Hx). lia.
        -- repeat constructor. cbn [ID]. lia.
      * apply unique_keys_snoc; [exact Hu|]. cbn [Namespace DeviceName Command].
        intros x Hx. exact (find_none _ _ Ef x Hx).
Qed.

Lemma DeleteSimDeviceCmd_well_keyed (db : DB) (id : Z) :
  Quiet db -> well_keyed db ->
  Quiet (snd (DeleteSimDeviceCmd id db))
  /\ well_keyed (snd (DeleteSimDeviceCmd id db)).
Proof.
  intros Hq Hw. destruct (Z.leb_spec id 0) as [Hid|Hid].
  - unfold DeleteSimDeviceCmd.
    replace (id <=? 0) with true by (symmetry; now apply Z.leb_le). now split.
  - rewrite (DeleteSimDeviceCmd_quiet db id Hid Hq). split; [exact Hq|].
    now apply (well_keyed_filter db _ (fun r => negb (where_id id r))).
Qed.

Lemma UpdateSimDeviceCmd_well_keyed (db : DB) (id : Z)
  (body : result string SimDeviceCmdBody) :
  Quiet db -> well_keyed db ->
  Quiet (snd (UpdateSimDeviceCmd id body db))
  /\ well_keyed (snd (UpdateSimDeviceCmd id body db)).
Proof.
  intros Hq Hw. destruct (Z.leb_spec id 0) as [Hid|Hid].
  { unfold UpdateSimDeviceCmd.
    replace (id <=? 0) with true by (symmetry; now apply Z.leb_le). now split. }
  destruct body as [req|err].
  2:{ unfold UpdateSimDeviceCmd.
      replace (id <=? 0) with false by (symmetry; now apply Z.leb_gt). now split. }
  rewrite (UpdateSimDeviceCmd_quiet db id req Hid Hq).
  destruct (find (where_id id) (rows db)) as [item|] eqn:Eitem; [|now split].
  destruct (find_where_id _ _ _ Eitem) as [Hitem Hidi].
  cbv zeta.
  set (newNS := if streq (strings.TrimSpace (req_Namespace req)) []
                then Namespace item else strings.TrimSpace (req_Namespace req)).
  set (newDev := if streq (strings.TrimSpace (req_DeviceName req)) []
                 then DeviceName item else strings.TrimSpace (req_DeviceName req)).
  set (newCmd := if streq (strings.TrimSpace (req_Command req)) []
                 then Command item else strings.TrimSpace (req_Command req)).
  destruct Hw as [Hnd [Hlt Hu]].
  assert (Hupdated :
    (forall x, In x (rows db) -> ID x <> ID item ->
       where_key newNS newDev newCmd x = false) ->
    forall upd_out now,
    well_keyed
      {| rows := map (fun r => if where_id (ID item) r
                    then assign
                           {| f_namespace := if negb (streq newNS (Namespace item))
                                             then Some newNS else None;
                              f_device_name := if negb (streq newDev (DeviceName item))
                                               then Some newDev else None;
                              f_command := if negb (streq newCmd (Command item))
                                           then Some newCmd else None;
                              f_output := upd_out;
                              f_enabled := Some (req_Enabled req) |} now r
                    else r) (rows db);
         next_id := next_id db; clock := clock db + 1; busy := [] |}).
  { intros Hfree upd_out now. apply well_keyed_map; try assumption.
    - intros x. now destruct (where_id (ID item) x).
    - apply (unique_keys_rewrite (ID item) _ newNS newDev newCmd); try assumption.
      intros x Hx Hxi.
      rewrite (NoDup_ID_same (rows db) x item Hnd Hx Hitem Hxi).
      unfold assign. cbn [Namespace DeviceName Command f_namespace f_device_name f_command].
      repeat split.
      + destruct (streq newNS (Namespace item)) eqn:E; [|reflexivity].
        apply streq_eq in E. now rewrite E.
      + destruct (streq newDev (DeviceName item)) eqn:E; [|reflexivity].
        apply streq_eq in E. now rewrite E.
      + destruct (streq newCmd (Command item)) eqn:E; [|reflexivity].
        apply streq_eq in E. now rewrite E. }
  destruct (find (where_key newNS newDev newCmd) (rows db)) as [other|] eqn:Eo.
  - destruct (Z.eqb_spec (ID other) (ID item)) as [Hsame|Hdiff]; cbn [negb].
    + split; [reflexivity|]. cbn [snd]. apply Hupdated.
      intros x Hx Hxi.
      destruct (find_some _ _ Eo) as [Ho Hko].
      assert (Hoi : other = item) by now apply (NoDup_ID_same (rows db)).
      subst other.
      destruct (where_key newNS newDev newCmd x) eqn:Ex; [|reflexivity].
      exfalso. apply Hxi.
      assert (Hfx : In x (filter (where_key newNS newDev newCmd) (rows db)))
        by (apply filter_In; now split).
      assert (Hfi : In item (filter (where_key newNS newDev newCmd) (rows db)))
        by (apply filter_In; now split).
      destruct (unique_keys_filter newNS newDev newCmd (rows db) Hu) as [E|[r E]];
        rewrite E in Hfx, Hfi; [contradiction|].
      destruct Hfx as [<-|[]], Hfi as [<-|[]]. reflexivity.
    + split; [reflexivity|]. cbn [snd].
      apply (well_keyed_filter
               {| rows := map (fun r => if where_id (ID other) r
                             then assign
                                    {| f_namespace := None; f_device_name := None;
                                       f_command := None;
                                       f_output := Some (if negb (streq (strings.TrimSpace
                                                                    (req_Output req)) [])
                                                         then req_Output req
                                                         else Output item);
                                       f_enabled := Some (req_Enabled req) |} (clock db) r
                             else r) (rows db);
                  next_id := next_id db; clock := clock db + 1; busy := [] |}
               _ (fun r => negb (where_id (ID item) r))); try reflexivity.
      apply well_keyed_map; try assumption.
      * intros x. now destruct (where_id (ID other) x).
      * apply unique_keys_map; [|exact Hu].
        intros x. now destruct (where_id (ID other) x).
  - split; [reflexivity|]. cbn [snd]. apply Hupdated.
    intros x Hx _. exact (find_none _ _ Eo x Hx).
Qed.

Lemma empty_db_well_keyed : Quiet empty_db /\ well_keyed empty_db.
Proof. repeat split; constructor. Qed.

(** X1. The handlers keep the store well keyed as long as it is quiet: the
    uniqueness invariant of the data model holds in every store reached from
    the empty one by creates, updates and deletes that meet no contention. *)
Theorem handlers_keep_well_keyed (db : DB) :
  Quiet db -> well_keyed db ->
  (forall body,
     Quiet (snd (CreateSimDeviceCmd body db))
     /\ well_keyed (snd (CreateSimDeviceCmd body db)))
  /\ (forall id body,
        Quiet (snd (UpdateSimDeviceCmd id body db))
        /\ well_keyed (snd (UpdateSimDeviceCmd id body db)))
  /\ (forall id,
        Quiet (snd (DeleteSimDeviceCmd id db))
        /\ well_keyed (snd (DeleteSimDeviceCmd id db))).
Proof.
  intros Hq Hw. split; [|split].
  - intros body. now apply CreateSimDeviceCmd_well_keyed.
  - intros id body. now apply UpdateSimDeviceCmd_well_keyed.
  - intros id. now apply DeleteSimDeviceCmd_well_keyed.
Qed.

Lemma DeleteSimDeviceCmd_keeps
  (Rr : list SimDeviceCommand -> list SimDeviceCommand -> Prop) (id : Z) :
  (forall l, Rr l l) ->
  (forall l1 l2 l3, Rr l1 l2 -> Rr l2 l3 -> Rr l1 l3) ->
  (forall l, Rr l (filter (fun r => negb (where_id id r)) l)) ->
  keeps Rr (DeleteSimDeviceCmd id).
Proof.
  intros Hrefl Htrans Hdel. unfold DeleteSimDeviceCmd.
  destruct (id <=? 0); [now apply keeps_ret|].
  apply keeps_bind; [assumption | | intros [x|e]; now apply keeps_ret].
  apply keeps_WithRetry; [assumption..|]. apply keeps_call; [assumption|].
  intros db. simpl. apply Hdel.
Qed.

Lemma UpdateSimDeviceCmd_keeps
  (Rr : list SimDeviceCommand -> list SimDeviceCommand -> Prop) (id : Z)
  (req : SimDeviceCmdBody) :
  (forall l, Rr l l) ->
  (forall l1 l2 l3, Rr l1 l2 -> Rr l2 l3 -> Rr l1 l3) ->
  (forall l i now upd,
     f_command upd = None
     \/ f_command upd = Some (strings.TrimSpace (req_Command req)) ->
     Rr l (map (fun r => if where_id i r then assign upd now r else r) l)) ->
  (forall l i, Rr l (filter (fun r => negb (where_id i r)) l)) ->
  keeps Rr (UpdateSimDeviceCmd id (Ok req)).
Proof.
  intros Hrefl Htrans Hupd Hdel. unfold UpdateSimDeviceCmd.
  destruct (id <=? 0); [now apply keeps_ret|].
  apply keeps_bind; [assumption | now apply keeps_First |].
  intros [item|e]; [|now apply keeps_ret].
  cbv zeta.
  apply keeps_bind; [assumption | now apply keeps_First |].
  intros looked.
  destruct (match looked with
            | Ok other => if negb (ID other =? ID item) then Some other else None
            | Err _ => None
            end) as [other|].
  - apply keeps_bind; [assumption | |].
    + apply keeps_WithRetry; [assumption..|]. apply keeps_call; [assumption|].
      intros db. simpl. apply Hupd. now left.
    + intros [other'|e']; [|now apply keeps_ret].
      apply keeps_bind; [assumption | | intros u; now apply keeps_ret].
      apply keeps_WithRetry; [assumption..|]. apply keeps_call; [assumption|].
      intros db. simpl. apply Hdel.
  - apply keeps_bind; [assumption | | intros [x|e']; now apply keeps_ret].
    apply keeps_WithRetry; [assumption..|]. apply keeps_call; [assumption|].
    intros db. simpl. apply Hupd. simpl.
    destruct (streq (strings.TrimSpace (req_Command req)) []) eqn:Eb.
    + rewrite streq_refl. now left.
    + destruct (streq _ (Command item)); [now left | now right].
Qed.

(** C8 (amended). For a positive id that no record has: get and update
    answer not-found after the single look-up, which is not tried again, and
    leave the store as it was; delete has no not-found answer: it leaves the
    rows as they were and answers success when the store takes the call (a
    store failure after the retries otherwise). *)
Theorem absent_id_answers (db : DB) (id : Z) (req : SimDeviceCmdBody) :
  0 < id ->
  find (where_id id) (rows db) = None ->
  GetSimDeviceCmd id db
  = (JSON 404 "NOT_FOUND" "记录不存在" H_none, with_busy (tl (busy db)) db)
  /\ UpdateSimDeviceCmd id (Ok req) db
     = (JSON 404 "NOT_FOUND" "记录不存在" H_none, with_busy (tl (busy db)) db)
  /\ rows (snd (DeleteSimDeviceCmd id db)) = rows db
  /\ (status (fst (DeleteSimDeviceCmd id db)) = 200
      \/ status (fst (DeleteSimDeviceCmd id db)) = 500)
  /\ (hd false (busy db) = false ->
      fst (DeleteSimDeviceCmd id db) = JSON 200 "SUCCESS" "删除成功" H_none).
Proof.
  intros Hid Hfind. split; [now apply GetSimDeviceCmd_absent|].
  assert (Hpos : (id <=? 0) = false) by (apply Z.leb_gt; lia).
  split; [|split; [|split]].
  - unfold UpdateSimDeviceCmd. rewrite Hpos.
    unfold bind, First, call, ret. destruct db as [l n c b]. simpl in *.
    destruct b as [|[|] b]; simpl; rewrite ?Hfind; reflexivity.
  - assert (Hk : keeps (fun l l' => find (where_id id) l = None -> l' = l)
                   (DeleteSimDeviceCmd id)).
    { apply DeleteSimDeviceCmd_keeps.
      - reflexivity.
      - intros l1 l2 l3 H12 H23 H1. rewrite <- (H12 H1). apply H23.
        now rewrite (H12 H1).
      - intros l Hl. apply filter_all. intros x Hx.
        now rewrite (find_none _ _ Hl x Hx). }
    exact (Hk db Hfind).
  - unfold DeleteSimDeviceCmd. rewrite Hpos. unfold bind.
    destruct (WithRetry (Delete id) 6 100 db) as [[u|e] db']; simpl; auto.
  - intros Hb. unfold DeleteSimDeviceCmd. rewrite Hpos.
    unfold bind, WithRetry, Delete, call. simpl.
    destruct (busy db) as [|[|] b]; simpl in *; try discriminate; reflexivity.
Qed.

(** C6 (amended). A create that inserts stores the caller's command with the
    white space around it trimmed and nothing else changed (casing and inner
    white space as sent); a create that meets an existing record leaves every
    stored command as it is; and whatever the store meets, each command found
    after a create, an update or a delete was stored before or is the trimmed
    command of that request: no operation writes a normalized form. *)
Theorem command_stored_as_sent (db : DB) (req : SimDeviceCmdBody) (id : Z) :
  let ns := strings.TrimSpace (req_Namespace req) in
  let dev := strings.TrimSpace (req_DeviceName req) in
  let cmd := strings.TrimSpace (req_Command req) in
  (ns <> [] -> dev <> [] -> cmd <> [] -> Quiet db ->
   find (where_key ns dev cmd) (rows db) = None ->
   exists r, rows (snd (CreateSimDeviceCmd (Ok req) db)) = rows db ++ [r]
             /\ Command r = cmd)
  /\ (ns <> [] -> dev <> [] -> cmd <> [] -> Quiet db ->
      find (where_key ns dev cmd) (rows db) <> None ->
      map Command (rows (snd (CreateSimDeviceCmd (Ok req) db)))
      = map Command (rows db))
  /\ (forall r, In r (rows (snd (CreateSimDeviceCmd (Ok req) db))) ->
        In (Command r) (map Command (rows db)) \/ Command r = cmd)
  /\ (forall r, In r (rows (snd (UpdateSimDeviceCmd id (Ok req) db))) ->
        In (Command r) (map Command (rows db)) \/ Command r = cmd)
  /\ (forall r, In r (rows (snd (DeleteSimDeviceCmd id db))) ->
        In (Command r) (map Command (rows db))).
Proof.
  intros ns dev cmd.
  set (Rr := fun l l' : list SimDeviceCommand =>
               forall r, In r l' -> In (Command r) (map Command l) \/ Command r = cmd).
  assert (Hrefl : forall l, Rr l l) by (intros l r Hr; left; now apply in_map).
  assert (Htrans : forall l1 l2 l3, Rr l1 l2 -> Rr l2 l3 -> Rr l1 l3).
  { intros l1 l2 l3 H12 H23 r Hr. destruct (H23 r Hr) as [H2|Hc]; [|now right].
    apply in_map_iff in H2 as [x [Hx Hin]]. rewrite <- Hx. now apply H12. }
  assert (Hupd : forall l i now upd,
            f_command upd = None \/ f_command upd = Some cmd ->
            Rr l (map (fun r => if where_id i r then assign upd now r else r) l)).
  { intros l i now upd Hc r Hr. apply in_map_iff in Hr as [x [Hx Hin]].
    destruct (where_id i x); subst r.
    - unfold assign. cbn [Command]. destruct Hc as [-> | ->]; simpl;
        [left; now apply in_map | now right].
    - left. now apply in_map. }
  assert (Hdel : forall l i, Rr l (filter (fun r => negb (where_id i r)) l)).
  { intros l i r Hr. apply filter_In in Hr as [Hr _]. left. now apply in_map. }
  split; [|split; [|split; [|split]]].
  - intros Hns Hdev Hcmd Hq Hfind.
    rewrite (CreateSimDeviceCmd_new db req Hns Hdev Hcmd Hfind Hq).
    eexists. simpl. split; reflexivity.
  - intros Hns Hdev Hcmd Hq Hfind.
    destruct (find (where_key ns dev cmd) (rows db)) as [e|] eqn:Ef; [|contradiction].
    rewrite (CreateSimDeviceCmd_existing db req e Hns Hdev Hcmd Ef Hq).
    simpl. rewrite map_map. apply map_ext. intros x.
    now destruct (where_id (ID e) x).
  - apply (CreateSimDeviceCmd_keeps Rr (Ok req) Hrefl Htrans).
    + intros req' [= <-] l i now r Hr.
      apply in_app_or in Hr as [Hr|[<-|[]]]; [left; now apply in_map | now right].
    + intros req' [= <-] l i now. apply Hupd. now left.
  - apply (UpdateSimDeviceCmd_keeps Rr id req Hrefl Htrans Hupd Hdel).
  - intros r Hr.
    assert (Hk : keeps (fun l l' => forall r, In r l' -> In (Command r) (map Command l))
                   (DeleteSimDeviceCmd id)).
    { apply DeleteSimDeviceCmd_keeps.
      - intros l x Hx. now apply in_map.
      - intros l1 l2 l3 H12 H23 x Hx. specialize (H23 x Hx).
        apply in_map_iff in H23 as [y [Hy Hin]]. rewrite <- Hy. now apply H12.
      - intros l x Hx. apply filter_In in Hx as [Hx _]. now apply in_map. }
    exact (Hk db r Hr).
Qed.

(** * Concrete runs *)

(** The examples of the specification for the normalizer and the prefix
    rule; the inputs are ASCII, the case tables are not consulted. *)
Example normalize_case_and_space (To_LowerCase : rune -> rune) :
  normalizeCommand To_LowerCase (str "Show  IP" ++ [9] ++ str "Interface")
  = str "show ip interface"
  /\ normalizeCommand To_LowerCase (str "show ip interface") = str "show ip interface".
Proof. split; reflexivity. Qed.

Example prefix_sh_ip_int (To_LowerCase : rune -> rune) :
  prefixMatchByWords To_LowerCase (str "sh ip int") (str "show ip interface brief") = true
  /\ prefixMatchByWords To_LowerCase (str "sh ip intx") (str "show ip interface brief") = false
  /\ prefixMatchByWords To_LowerCase (str "show ip interface brief extra")
       (str "show ip interface brief") = false
  /\ prefixMatchByWords To_LowerCase [] (str "show ip interface brief") = false.
Proof. repeat split; reflexivity. Qed.

(** C1, as stated, fails: two commands that normalize to the same string but
    differ in inner white space are stored as two records. *)
Lemma create_twice_inner_space :
  let req1 := sample_body "lab" "r1" "show  ip" "first" true in
  let req2 := sample_body "lab" "r1" "show ip" "second" true in
  let db2 := snd (CreateSimDeviceCmd (Ok req2)
                    (snd (CreateSimDeviceCmd (Ok req1) empty_db))) in
  (forall To_LowerCase,
     normalizeCommand To_LowerCase (req_Command req1)
     = normalizeCommand To_LowerCase (req_Command req2))
  /\ rows db2 = [sample_row 1 "lab" "r1" "show  ip" "first" true 0;
                 sample_row 2 "lab" "r1" "show ip" "second" true 1].
Proof. split; [intros To_LowerCase|]; reflexivity. Qed.

(** Two creates that differ in case and in the white space around the
    command, on the store of the merge example. *)
Lemma CreateSimDeviceCmd_twice_run :
  exists r,
    filter (where_key (str "lab") (str "r1") (str "Show IP"))
      (rows (snd (CreateSimDeviceCmd (Ok (sample_body "lab" "r1" "show ip " "second" false))
                    (snd (CreateSimDeviceCmd
                            (Ok (sample_body "lab" "r1" " Show IP" "first" true))
                            merge_db))))) = [r]
    /\ Output r = str "second".
Proof.
  apply (CreateSimDeviceCmd_twice merge_db (str "lab") (str "r1")
           (str " Show IP") (str "show ip ") (str "first") (str "second") true false);
    try reflexivity; vm_compute; discriminate.
Defined.


(** With a blank incoming output the survivor takes the target's output. *)
Example merge_blank_output :
  rows (snd (UpdateSimDeviceCmd 1 (Ok (sample_body "" "" "CMD2" "  " true)) merge_db))
  = [sample_row 2 "lab" "r1" "cmd2" "one" true 2].
Proof. reflexivity. Qed.

(** The exact match in second place wins over the partial match before it
    and the exact match after it. *)
Lemma MatchSimDeviceCmd_exact_first_run :
  fst (MatchSimDeviceCmd ascii_case_only
         (Ok (sample_match "lab" "r1" "show version" true)) version_db)
  = JSON 200 "SUCCESS" "exact" (H_match "exact" (str "V")).
Proof.
  apply (MatchSimDeviceCmd_exact_first ascii_case_only version_db
           (sample_match "lab" "r1" "show version" true)
           [sample_row 1 "lab" "r1" "show version detail" "D" true 0]
           (sample_row 2 "lab" "r1" "Show  Version" "V" true 1)
           [sample_row 3 "lab" "r1" "show version" "W" true 2]);
    try reflexivity; try (vm_compute; discriminate).
  intros y [<-|[]]. vm_compute. discriminate.
Defined.

(** The ambiguity example of the specification. *)
Lemma MatchSimDeviceCmd_partial_run :
  fst (MatchSimDeviceCmd ascii_case_only
         (Ok (sample_match "lab" "r1" "sh ip r" false)) route_db)
  = JSON 200 "SUCCESS" "partial_multi"
      (H_match "partial_multi"
         (str "which command do you mean?" ++ [10]
          ++ str " -- show ip route" ++ [10]
          ++ str " -- show ip running-config")).
Proof.
  apply (MatchSimDeviceCmd_partial ascii_case_only route_db
           (sample_match "lab" "r1" "sh ip r" false));
    try (vm_compute; discriminate); try reflexivity.
  intros y [<-|[<-|[<-|[]]]]; vm_compute; discriminate.
Defined.

Example match_single_and_none :
  fst (MatchSimDeviceCmd ascii_case_only
         (Ok (sample_match "lab" "r1" "sh ip int" false)) route_db)
  = JSON 200 "SUCCESS" "partial_single" (H_match "partial_single" (str "I"))
  /\ fst (MatchSimDeviceCmd ascii_case_only
            (Ok (sample_match "lab" "r1" "sh ip intx" false)) route_db)
     = JSON 200 "SUCCESS" "none" (H_match "none" (str "unspport command"))
  /\ fst (MatchSimDeviceCmd ascii_case_only
            (Ok (sample_match "lab" "r1" "show" false)) empty_db)
     = JSON 200 "SUCCESS" "none" (H_match "none" (str "unspport command")).
Proof. repeat split; reflexivity. Qed.

(** C6, as stated, fails: the command is trimmed before it is stored. *)
Lemma create_trims_the_command :
  let req := sample_body "lab" "r1" " Show  Version " "v" true in
  map Command (rows (snd (CreateSimDeviceCmd (Ok req) empty_db))) = [str "Show  Version"]
  /\ streq (str "Show  Version") (req_Command req) = false.
Proof. split; reflexivity. Qed.

(** What is stored is the command as sent, trimmed. *)
Lemma command_stored_as_sent_run :
  exists r,
    rows (snd (CreateSimDeviceCmd (Ok (sample_body "lab" "r1" " Show  Version " "v" true))
                 merge_db)) = rows merge_db ++ [r]
    /\ Command r = str "Show  Version".
Proof.
  apply (proj1 (command_stored_as_sent merge_db
                  (sample_body "lab" "r1" " Show  Version " "v" true) 0));
    try reflexivity; vm_compute; discriminate.
Defined.

(** A create sent with the enabled flag false stores an enabled record. *)
Lemma CreateSimDeviceCmd_enabled_run :
  exists r,
    fst (CreateSimDeviceCmd (Ok (sample_body "lab" "r1" "show clock" "12:00" false)) merge_db)
    = JSON 201 "SUCCESS" "创建成功" (H_record r)
    /\ rows (snd (CreateSimDeviceCmd (Ok (sample_body "lab" "r1" "show clock" "12:00" false))
                    merge_db)) = rows merge_db ++ [r]
    /\ Enabled r = true.
Proof.
  apply (proj1 (CreateSimDeviceCmd_enabled merge_db
                  (sample_body "lab" "r1" "show clock" "12:00" false)));
    try reflexivity; vm_compute; discriminate.
Defined.

(** C8, as stated, fails for delete: an id that no record has is answered
    with success, and a locked store is tried again. *)
Lemma delete_absent_id_succeeds :
  find (where_id 7) (rows merge_db) = None
  /\ DeleteSimDeviceCmd 7 merge_db = (JSON 200 "SUCCESS" "删除成功" H_none, merge_db)
  /\ DeleteSimDeviceCmd 7 (with_busy [true; true] merge_db)
     = (JSON 200 "SUCCESS" "删除成功" H_none, tick 200 merge_db).
Proof. repeat split; reflexivity. Qed.

(** An id that no record has, on a store whose second call will be
    refused. *)
Lemma absent_id_answers_run :
  GetSimDeviceCmd 7 (with_busy [false; true] merge_db)
  = (JSON 404 "NOT_FOUND" "记录不存在" H_none, with_busy [true] merge_db)
  /\ UpdateSimDeviceCmd 7 (Ok (sample_body "" "" "x" "y" true)) (with_busy [false; true] merge_db)
     = (JSON 404 "NOT_FOUND" "记录不存在" H_none, with_busy [true] merge_db)
  /\ rows (snd (DeleteSimDeviceCmd 7 (with_busy [false; true] merge_db))) = rows merge_db
  /\ (status (fst (DeleteSimDeviceCmd 7 (with_busy [false; true] merge_db))) = 200
      \/ status (fst (DeleteSimDeviceCmd 7 (with_busy [false; true] merge_db))) = 500)
  /\ (hd false (busy (with_busy [false; true] merge_db)) = false ->
      fst (DeleteSimDeviceCmd 7 (with_busy [false; true] merge_db))
      = JSON 200 "SUCCESS" "删除成功" H_none).
Proof.
  apply (absent_id_answers (with_busy [false; true] merge_db) 7
           (sample_body "" "" "x" "y" true)); [lia | reflexivity].
Defined.

(** The store of the merge example is quiet and well keyed, and stays so. *)
Lemma handlers_keep_well_keyed_run :
  (forall body,
     Quiet (snd (CreateSimDeviceCmd body merge_db))
     /\ well_keyed (snd (CreateSimDeviceCmd body merge_db)))
  /\ (forall id body,
        Quiet (snd (UpdateSimDeviceCmd id body merge_db))
        /\ well_keyed (snd (UpdateSimDeviceCmd id body merge_db)))
  /\ (forall id,
        Quiet (snd (DeleteSimDeviceCmd id merge_db))
        /\ well_keyed (snd (DeleteSimDeviceCmd id merge_db))).
Proof.
  apply (handlers_keep_well_keyed merge_db); [reflexivity|].
  unfold well_keyed, merge_db. cbn [rows next_id]. repeat split.
  - repeat constructor; simpl; intuition discriminate.
  - repeat constructor; simpl; lia.
Defined.

(** The invariant is enforced at write time only: when the look-up of a
    create meets a locked store, its error is taken for "no such record" and
    a second row of the key is inserted. *)
Example create_when_lookup_is_locked :
  let db' := snd (CreateSimDeviceCmd (Ok (sample_body "lab" "r1" "CMD1" "again" true))
                    (with_busy [true] merge_db)) in
  map Command (rows db') = [str "cmd1"; str "cmd2"; str "CMD1"]
  /\ unique_keys (rows db') = false.
Proof. split; reflexivity. Qed.

(** On a store that already holds two rows of one key, the look-up of the
    key finds the row of the lower id: an update of that row which keeps its
    key finds the row itself and is an ordinary update, both rows stay. *)
Example update_finds_the_target_first :
  let db := {| rows := [sample_row 1 "lab" "r1" "cmd1" "one" true 0;
                        sample_row 2 "lab" "r1" "CMD1" "two" true 1];
               next_id := 3; clock := 2; busy := [] |} in
  UpdateSimDeviceCmd 1 (Ok (sample_body "" "" "" "new" true)) db
  = (JSON 200 "SUCCESS" "更新成功" (H_record (sample_row 1 "lab" "r1" "cmd1" "new" true 2)),
     {| rows := [sample_row 1 "lab" "r1" "cmd1" "new" true 2;
                 sample_row 2 "lab" "r1" "CMD1" "two" true 1];
        next_id := 3; clock := 3; busy := [] |}).
Proof. reflexivity. Qed.

(** * The normal form of a command *)

Lemma fields_from_trailing_spaces (x sp cur : gostring) :
  Forall (fun r => unicode.IsSpace r = true) sp ->
  strings.fields_from cur (x ++ sp) = strings.fields_from cur x.
Proof.
  intros Hsp. revert cur. induction x as [|c x IH]; intros cur.
  - simpl. revert cur. induction Hsp as [|c sp Hc Hsp IH]; intros cur; [reflexivity|].
    simpl. rewrite Hc. destruct cur as [|y cur].
    + exact (IH []).
    + now rewrite (IH []).
  - simpl. destruct (unicode.IsSpace c); [destruct cur|]; now rewrite IH.
Qed.

(** White space in front of a string closes the field being read and opens
    none. *)
Lemma fields_from_leading_spaces (sp y cur : gostring) :
  sp <> [] ->
  Forall (fun r => unicode.IsSpace r = true) sp ->
  strings.fields_from cur (sp ++ y)
  = match cur with [] => [] | _ :: _ => [rev cur] end ++ strings.fields_from [] y.
Proof.
  intros Hne Hsp. revert cur. induction Hsp as [|c sp Hc Hsp IH]; [contradiction|].
  intros cur. simpl. rewrite Hc.
  destruct sp as [|c' sp'].
  - now destruct cur.
  - specialize (IH ltac:(discriminate) []). simpl in IH.
    destruct cur; simpl; now rewrite IH.
Qed.

Lemma Fields_leading_spaces (sp y : gostring) :
  Forall (fun r => unicode.IsSpace r = true) sp ->
  strings.Fields (sp ++ y) = strings.Fields y.
Proof.
  intros Hsp. destruct sp as [|c sp]; [reflexivity|].
  unfold strings.Fields. now rewrite fields_from_leading_spaces.
Qed.

Lemma Fields_TrimSpace (s : gostring) :
  strings.Fields (strings.TrimSpace s) = strings.Fields s.
Proof.
  unfold strings.TrimSpace.
  destruct (TrimLeftSpace_suffix s) as [sp [Hs Hsp]].
  destruct (TrimLeftSpace_suffix (rev (strings.TrimLeftSpace s))) as [sp' [Hs' Hsp']].
  rewrite Hs at 2. rewrite Fields_leading_spaces by exact Hsp.
  apply (f_equal (@rev rune)) in Hs'. rewrite rev_involutive, rev_app_distr in Hs'.
  rewrite Hs' at 2. unfold strings.Fields.
  rewrite fields_from_trailing_spaces; [reflexivity|].
  now apply Forall_rev_iff.
Qed.

(** Replacing white space by white space changes no field. *)
Lemma fields_from_replace (old new : gostring) :
  old <> [] -> new <> [] ->
  Forall (fun r => unicode.IsSpace r = true) old ->
  Forall (fun r => unicode.IsSpace r = true) new ->
  forall (s : gostring) (skip : nat) (cur : gostring),
    Forall (fun r => unicode.IsSpace r = true) (firstn skip s) ->
    skip = 0%nat \/ cur = [] ->
    strings.fields_from cur (strings.replace_from skip old new s)
    = strings.fields_from cur s.
Proof.
  intros Hone Hnne Hold Hnew. induction s as [|c t IH]; intros skip cur Hfirst Hcur.
  - now destruct skip.
  - destruct skip as [|k].
    + cbn [strings.replace_from].
      destruct (strings.HasPrefix (c :: t) old) eqn:Ep.
      * apply HasPrefix_app in Ep as [rest Hrest].
        destruct old as [|o old']; [contradiction|].
        injection Hrest as -> ->. inversion Hold as [|? ? Ho Hold']; subst.
        rewrite fields_from_leading_spaces by assumption.
        cbn [strings.fields_from]. rewrite Ho. cbn [length Nat.pred].
        rewrite (IH (length old') []).
        -- now destruct cur.
        -- now rewrite firstn_app, firstn_all, Nat.sub_diag, app_nil_r.
        -- now right.
      * cbn [strings.fields_from].
        destruct (unicode.IsSpace c); [destruct cur|];
          rewrite IH; auto; constructor.
    + cbn [strings.replace_from]. simpl in Hfirst.
      inversion Hfirst as [|? ? Hc Hk]; subst.
      destruct Hcur as [Hk0|Hcur]; [discriminate|]. subst cur.
      cbn [strings.fields_from]. rewrite Hc.
      apply IH; [exact Hk | now right].
Qed.

Lemma Fields_ReplaceAll (s old new : gostring) :
  old <> [] -> new <> [] ->
  Forall (fun r => unicode.IsSpace r = true) old ->
  Forall (fun r => unicode.IsSpace r = true) new ->
  strings.Fields (strings.ReplaceAll s old new) = strings.Fields s.
Proof.
  intros Hone Hnne Hold Hnew. unfold strings.ReplaceAll, strings.Fields.
  destruct old as [|o old']; [contradiction|].
  apply fields_from_replace; try assumption; [constructor | now left].
Qed.

Lemma normalizeCommand_joined_fields (To_LowerCase : rune -> rune) (s : gostring) :
  normalizeCommand To_LowerCase s
  = strings.ToLower To_LowerCase (strings.Join (strings.Fields s) [32]).
Proof.
  unfold normalizeCommand.
  destruct (streq (strings.TrimSpace s) []) eqn:E.
  - apply streq_nil in E. rewrite <- (Fields_TrimSpace s), E. reflexivity.
  - rewrite !Fields_ReplaceAll, Fields_TrimSpace;
      try discriminate; try (repeat constructor); reflexivity.
Qed.

Lemma fields_from_nil (s cur : gostring) :
  strings.fields_from cur s = [] ->
  cur = [] /\ Forall (fun r => unicode.IsSpace r = true) s.
Proof.
  revert cur. induction s as [|c s IH]; intros cur; simpl.
  - destruct cur; [now split | discriminate].
  - destruct (unicode.IsSpace c) eqn:Ec.
    + destruct cur; [|discriminate]. intros Hf.
      destruct (IH [] Hf) as [_ Hs]. split; [reflexivity | now constructor].
    + intros Hf. destruct (IH _ Hf) as [Hcur _]. discriminate.
Qed.

Lemma TrimLeftSpace_spaces (s : gostring) :
  Forall (fun r => unicode.IsSpace r = true) s -> strings.TrimLeftSpace s = [].
Proof. induction 1 as [|c s Hc Hs IH]; [reflexivity|]. simpl. now rewrite Hc. Qed.

(** A string is blank, that is, empty once trimmed, exactly when it has no
    field, and exactly when its normal form is empty. *)
Lemma blank_no_fields (s : gostring) :
  strings.TrimSpace s = [] <-> strings.Fields s = [].
Proof.
  split.
  - intros Ht. now rewrite <- Fields_TrimSpace, Ht.
  - intros Hf. apply fields_from_nil in Hf as [_ Hs].
    unfold strings.TrimSpace. now rewrite (TrimLeftSpace_spaces s Hs).
Qed.

Lemma Join_nil (ws : list gostring) :
  Forall is_word ws -> strings.Join ws [32] = [] -> ws = [].
Proof.
  intros Hws Hj. destruct ws as [|w rest]; [reflexivity|].
  destruct (Join_ends (w :: rest) Hws) as [[c [x [Hx _]]] _]; [discriminate|].
  congruence.
Qed.

Lemma normalizeCommand_blank (To_LowerCase : rune -> rune) (s : gostring) :
  normalizeCommand To_LowerCase s = [] <-> strings.TrimSpace s = [].
Proof.
  rewrite normalizeCommand_joined_fields, blank_no_fields. unfold strings.ToLower. split.
  - intros Hm. apply map_eq_nil in Hm. apply Join_nil; [apply Fields_words | exact Hm].
  - now intros ->.
Qed.

(** X2. The normal form of a command is its fields, lower-cased, joined by
    single spaces: trimming and the replacement of CRLF and tabs, which come
    first in [normalizeCommand], have no effect of their own on the result;
    and the normal form is empty exactly when the command is blank. *)
Theorem normalizeCommand_normal_form (To_LowerCase : rune -> rune) (s : gostring) :
  normalizeCommand To_LowerCase s
  = strings.ToLower To_LowerCase (strings.Join (strings.Fields s) [32])
  /\ (normalizeCommand To_LowerCase s = [] <-> strings.TrimSpace s = []).
Proof.
  split; [apply normalizeCommand_joined_fields | apply normalizeCommand_blank].
Qed.

(** * The prefix rule as a relation *)

Lemma HasPrefix_refl (s : gostring) : strings.HasPrefix s s = true.
Proof. apply HasPrefix_app. exists []. now rewrite app_nil_r. Qed.

Lemma HasPrefix_trans (a b c : gostring) :
  strings.HasPrefix b a = true -> strings.HasPrefix c b = true ->
  strings.HasPrefix c a = true.
Proof.
  rewrite !HasPrefix_app. intros [r1 ->] [r2 ->].
  exists (r1 ++ r2). now rewrite app_assoc.
Qed.

Lemma prefix_words_refl (l : list gostring) : prefix_words l l = true.
Proof. induction l as [|w l IH]; [reflexivity|]. simpl. now rewrite HasPrefix_refl. Qed.

Lemma prefix_words_trans (a b c : list gostring) :
  prefix_words a b = true -> prefix_words b c = true -> prefix_words a c = true.
Proof.
  revert b c. induction a as [|x a IH]; intros b c Hab Hbc; [reflexivity|].
  destruct b as [|y b]; [discriminate|]. destruct c as [|z c]; [discriminate|].
  simpl in *.
  destruct (strings.HasPrefix y x) eqn:Eyx; [|discriminate].
  destruct (strings.HasPrefix z y) eqn:Ezy; [|discriminate].
  rewrite (HasPrefix_trans x y z Eyx Ezy). now apply IH with b.
Qed.

Lemma prefix_words_length (a b : list gostring) :
  prefix_words a b = true -> (length a <= length b)%nat.
Proof. intros H. now apply prefix_words_positional in H as [Hl _]. Qed.

Section PrefixRule.

Variable To_LowerCase : rune -> rune.

Lemma prefixMatchByWords_inv (a b : gostring) :
  prefixMatchByWords To_LowerCase a b = true ->
  strings.Fields (normalizeCommand To_LowerCase a) <> []
  /\ prefix_words (strings.Fields (normalizeCommand To_LowerCase a))
       (strings.Fields (normalizeCommand To_LowerCase b)) = true.
Proof.
  unfold prefixMatchByWords.
  destruct (strings.Fields (normalizeCommand To_LowerCase a)) as [|w l] eqn:Ea;
    [discriminate|].
  cbn [length Nat.eqb].
  destruct (Nat.ltb _ _); [discriminate|]. intros H. split; [discriminate | exact H].
Qed.

Lemma prefixMatchByWords_intro (a b : gostring) :
  strings.Fields (normalizeCommand To_LowerCase a) <> [] ->
  prefix_words (strings.Fields (normalizeCommand To_LowerCase a))
    (strings.Fields (normalizeCommand To_LowerCase b)) = true ->
  prefixMatchByWords To_LowerCase a b = true.
Proof.
  intros Hne Hp. unfold prefixMatchByWords.
  pose proof (prefix_words_length _ _ Hp) as Hlen.
  destruct (strings.Fields (normalizeCommand To_LowerCase a)) as [|w l] eqn:Ea;
    [contradiction|].
  cbn [length Nat.eqb].
  replace (_ <? _)%nat with false; [exact Hp|].
  symmetry. apply Nat.ltb_ge. exact Hlen.
Qed.

(** X3. A command that has a word prefix-matches every command with the same
    normal form, itself included: whatever is an exact match is a partial
    match as well, and only the order of the tests in the scan keeps the two
    apart. *)
Theorem prefixMatchByWords_of_exact (a b : gostring) :
  strings.Fields (normalizeCommand To_LowerCase a) <> [] ->
  normalizeCommand To_LowerCase a = normalizeCommand To_LowerCase b ->
  prefixMatchByWords To_LowerCase a b = true.
Proof.
  intros Hne Heq. apply prefixMatchByWords_intro; [exact Hne|].
  rewrite <- Heq. apply prefix_words_refl.
Qed.

(** X4. The prefix rule is transitive: an input that abbreviates a command
    which abbreviates a third one abbreviates the third. *)
Theorem prefixMatchByWords_trans (a b c : gostring) :
  prefixMatchByWords To_LowerCase a b = true ->
  prefixMatchByWords To_LowerCase b c = true ->
  prefixMatchByWords To_LowerCase a c = true.
Proof.
  intros Hab Hbc.
  apply prefixMatchByWords_inv in Hab as [Hne Hab].
  apply prefixMatchByWords_inv in Hbc as [_ Hbc].
  apply prefixMatchByWords_intro; [exact Hne|].
  now apply prefix_words_trans with (strings.Fields (normalizeCommand To_LowerCase b)).
Qed.

End PrefixRule.

Lemma prefixMatchByWords_of_exact_run :
  prefixMatchByWords ascii_case_only (str "Show  IP route") (str " show ip ROUTE ") = true.
Proof.
  apply (prefixMatchByWords_of_exact ascii_case_only); [vm_compute; discriminate | reflexivity].
Defined.

Lemma prefixMatchByWords_trans_run :
  prefixMatchByWords ascii_case_only (str "sh ip") (str "show ip interface brief") = true.
Proof.
  apply (prefixMatchByWords_trans ascii_case_only (str "sh ip") (str "sho ip int"));
    reflexivity.
Defined.

(** * More on matching *)

Lemma fields_from_map (f : rune -> rune) (s cur : gostring) :
  (forall r, unicode.IsSpace (f r) = unicode.IsSpace r) ->
  strings.fields_from (map f cur) (map f s)
  = map (map f) (strings.fields_from cur s).
Proof.
  intros Hf. revert cur. induction s as [|c s IH]; intros cur.
  - destruct cur as [|x cur]; [reflexivity|].
    change ([rev (map f (x :: cur))] = [map f (rev (x :: cur))]).
    now rewrite map_rev.
  - change (map f (c :: s)) with (f c :: map f s).
    cbn [strings.fields_from]. rewrite Hf. destruct (unicode.IsSpace c).
    + destruct cur as [|x cur].
      * exact (IH []).
      * change (rev (map f (x :: cur)) :: strings.fields_from (map f []) (map f s)
                = map f (rev (x :: cur)) :: map (map f) (strings.fields_from [] s)).
        rewrite map_rev. f_equal. exact (IH []).
    + exact (IH (c :: cur)).
Qed.

Lemma LOWER_keeps_space (r : rune) :
  unicode.IsSpace (if (65 <=? r) && (r <=? 90) then r + 32 else r) = unicode.IsSpace r.
Proof.
  destruct (Z.leb_spec 65 r); [|reflexivity].
  destruct (Z.leb_spec r 90); [|reflexivity].
  simpl. now rewrite !IsSpace_letters by lia.
Qed.

Lemma ToLower_LOWER (To_LowerCase : rune -> rune) (r : rune) :
  unicode.ToLower To_LowerCase (if (65 <=? r) && (r <=? 90) then r + 32 else r)
  = unicode.ToLower To_LowerCase r.
Proof.
  destruct (Z.leb_spec 65 r) as [H65|H65]; [|reflexivity].
  destruct (Z.leb_spec r 90) as [H90|H90]; [|reflexivity].
  simpl. unfold unicode.ToLower, unicode.MaxASCII.
  replace (r + 32 <=? 127) with true by (symmetry; apply Z.leb_le; lia).
  replace (r <=? 127) with true by (symmetry; apply Z.leb_le; lia).
  replace (r + 32 <=? 90) with false by (symmetry; apply Z.leb_gt; lia).
  replace (65 <=? r) with true by (symmetry; apply Z.leb_le; lia).
  replace (r <=? 90) with true by (symmetry; apply Z.leb_le; lia).
  now rewrite andb_false_r.
Qed.

Lemma normalizeCommand_LOWER (To_LowerCase : rune -> rune) (s : gostring) :
  normalizeCommand To_LowerCase (LOWER s) = normalizeCommand To_LowerCase s.
Proof.
  rewrite !normalizeCommand_joined_fields. unfold LOWER, strings.Fields.
  change (@nil rune) with (map (fun r => if (65 <=? r) && (r <=? 90) then r + 32 else r) [])
    at 1.
  rewrite fields_from_map by exact LOWER_keeps_space.
  change [32] with (map (fun r => if (65 <=? r) && (r <=? 90) then r + 32 else r) [32]) at 1.
  rewrite <- Join_map. unfold strings.ToLower. rewrite map_map.
  apply map_ext. intros r. apply ToLower_LOWER.
Qed.

Lemma LOWER_same_normal_form (To_LowerCase : rune -> rune) (a b : gostring) :
  LOWER a = LOWER b -> normalizeCommand To_LowerCase a = normalizeCommand To_LowerCase b.
Proof.
  intros H. rewrite <- (normalizeCommand_LOWER _ a), <- (normalizeCommand_LOWER _ b).
  now rewrite H.
Qed.

Lemma first_match_split {A} (p : A -> bool) (l : list A) (x0 : A) :
  In x0 l -> p x0 = true ->
  exists pre x post, l = pre ++ x :: post /\ p x = true
                     /\ forall y, In y pre -> p y = false.
Proof.
  induction l as [|a l IH]; intros Hin Hp; [contradiction|].
  destruct (p a) eqn:Ea.
  - exists [], a, l. repeat split; [exact Ea | intros y []].
  - destruct Hin as [->|Hin]; [congruence|].
    destruct (IH Hin Hp) as [pre [x [post [-> [Hx Hpre]]]]].
    exists (a :: pre), x, post. repeat split; [exact Hx|].
    intros y [<-|Hy]; [exact Ea | now apply Hpre].
Qed.

Section MatcherMore.

Variable To_LowerCase : rune -> rune.

Lemma prefixMatchByWords_normal_input (a a' c : gostring) :
  normalizeCommand To_LowerCase a = normalizeCommand To_LowerCase a' ->
  prefixMatchByWords To_LowerCase a c = prefixMatchByWords To_LowerCase a' c.
Proof. intros H. unfold prefixMatchByWords. now rewrite H. Qed.

Lemma scan_input_ext (inNorm a a' : gostring) (items acc : list SimDeviceCommand) :
  normalizeCommand To_LowerCase a = normalizeCommand To_LowerCase a' ->
  scan To_LowerCase inNorm a items acc = scan To_LowerCase inNorm a' items acc.
Proof.
  intros H. revert acc. induction items as [|it items IH]; intros acc; [reflexivity|].
  simpl. rewrite (prefixMatchByWords_normal_input a a' _ H).
  destruct (streq _ _); [reflexivity|].
  destruct (prefixMatchByWords _ _ _); apply IH.
Qed.

(** X5. The answer of a match depends on the typed command through its
    normal form only: two requests for the same namespace and device whose
    commands normalize alike (they differ in letter case and white space
    only) are answered alike, and leave the store alike. *)
Theorem MatchSimDeviceCmd_normal_input (db : DB) (ns dev c c' : gostring) (eo : bool) :
  normalizeCommand To_LowerCase c = normalizeCommand To_LowerCase c' ->
  MatchSimDeviceCmd To_LowerCase
    (Ok {| m_Namespace := ns; m_DeviceName := dev; m_Command := c; m_EnabledOnly := eo |}) db
  = MatchSimDeviceCmd To_LowerCase
      (Ok {| m_Namespace := ns; m_DeviceName := dev; m_Command := c'; m_EnabledOnly := eo |}) db.
Proof.
  intros H. unfold MatchSimDeviceCmd.
  cbn [m_Namespace m_DeviceName m_Command m_EnabledOnly].
  assert (Hblank : streq (strings.TrimSpace c) [] = streq (strings.TrimSpace c') []).
  { apply bool_iff. rewrite !streq_nil, <- !(normalizeCommand_blank To_LowerCase).
    now rewrite H. }
  rewrite Hblank. destruct (_ || _ || _); [reflexivity|].
  assert (Ht : normalizeCommand To_LowerCase (strings.TrimSpace c)
               = normalizeCommand To_LowerCase (strings.TrimSpace c'))
    by now rewrite !normalizeCommand_TrimSpace.
  unfold bind, Find, call.
  destruct (busy db) as [|[|] b]; try reflexivity;
    now rewrite Ht, (scan_input_ext _ _ _ _ _ Ht).
Qed.

(** X6. A match looks at the records of its namespace and device only, and
    when [enabled_only] is set at the enabled ones only: two stores that
    agree on those records (and on whether the store takes the query) give
    the same answer, whatever else they hold. *)
Theorem MatchSimDeviceCmd_device_only (db1 db2 : DB) (req : MatchBody) :
  filter (where_device (strings.TrimSpace (m_Namespace req))
            (strings.TrimSpace (m_DeviceName req)) (m_EnabledOnly req)) (rows db1)
  = filter (where_device (strings.TrimSpace (m_Namespace req))
              (strings.TrimSpace (m_DeviceName req)) (m_EnabledOnly req)) (rows db2) ->
  hd false (busy db1) = hd false (busy db2) ->
  fst (MatchSimDeviceCmd To_LowerCase (Ok req) db1)
  = fst (MatchSimDeviceCmd To_LowerCase (Ok req) db2).
Proof.
  intros Hrows Hbusy. unfold MatchSimDeviceCmd.
  destruct (_ || _ || _); [reflexivity|].
  unfold bind, Find, call.
  destruct (busy db1) as [|[|] b1], (busy db2) as [|[|] b2];
    simpl in Hbusy; try discriminate; cbn [rows with_busy]; rewrite ?Hrows;
    try reflexivity;
    destruct (scan _ _ _ _ _); reflexivity.
Qed.

(** X7. Records that the store's key comparison puts under one key have the
    same normal form: a record found by the look-up of create or update for
    a command is an exact match of that command.  (Not the other way round:
    commands that differ in inner white space normalize alike and have
    different keys.) *)
Theorem where_key_exact (ns dev cmd : gostring) (r : SimDeviceCommand) :
  where_key ns dev cmd r = true ->
  normalizeCommand To_LowerCase (Command r) = normalizeCommand To_LowerCase cmd.
Proof.
  intros Hk. apply where_key_eq in Hk as [_ [_ Hc]].
  now apply LOWER_same_normal_form.
Qed.

End MatcherMore.

Lemma MatchSimDeviceCmd_normal_input_run :
  MatchSimDeviceCmd ascii_case_only
    (Ok {| m_Namespace := str "lab"; m_DeviceName := str "r1";
           m_Command := str "SH   Ip r"; m_EnabledOnly := true |}) route_db
  = MatchSimDeviceCmd ascii_case_only
      (Ok {| m_Namespace := str "lab"; m_DeviceName := str "r1";
             m_Command := str " sh ip R "; m_EnabledOnly := true |}) route_db.
Proof.
  apply (MatchSimDeviceCmd_normal_input ascii_case_only). reflexivity.
Defined.

Lemma MatchSimDeviceCmd_device_only_run :
  fst (MatchSimDeviceCmd ascii_case_only (Ok (sample_match "lab" "r1" "sh ip r" true))
         (with_rows (rows route_db
                     ++ [sample_row 4 "lab" "r2" "show ip rip" "other device" true 3;
                         sample_row 5 "lab" "r1" "show ip rip" "disabled" false 4])
            route_db))
  = fst (MatchSimDeviceCmd ascii_case_only (Ok (sample_match "lab" "r1" "sh ip r" true))
           route_db).
Proof.
  apply (MatchSimDeviceCmd_device_only ascii_case_only); reflexivity.
Defined.

Lemma where_key_exact_run :
  normalizeCommand ascii_case_only (Command (sample_row 2 "lab" "r1" "Show  Version" "V" true 1))
  = normalizeCommand ascii_case_only (str "SHOW  VERSION").
Proof.
  apply (where_key_exact ascii_case_only (str "lab") (str "r1")). reflexivity.
Defined.

(** * Validation, failures and retries *)

Lemma First_rows (cond : SimDeviceCommand -> bool) (db : DB) :
  rows (snd (First cond db)) = rows db.
Proof.
  unfold First, call. destruct (busy db) as [|[|] b]; simpl;
    try destruct (find cond (rows db)); reflexivity.
Qed.

Lemma retry_err_rows {A} (fn : M (result error A)) (more : nat) (delay : Z) :
  (forall db e db', fn db = (Err e, db') -> rows db' = rows db) ->
  forall db e db', retry fn more delay db = (Err e, db') -> rows db' = rows db.
Proof.
  intros Hfn. induction more as [|k IH]; intros db e db' Hr; simpl in Hr;
    destruct (fn db) as [[a|[|]] db1] eqn:E; try discriminate;
    try (injection Hr as <- <-; exact (Hfn _ _ _ E)).
  rewrite (IH _ _ _ Hr). simpl. exact (Hfn _ _ _ E).
Qed.

Lemma call_err_rows {A} (op : M (result error A)) :
  (forall db e db', op db <> (Err e, db')) ->
  forall db e db', call op db = (Err e, db') -> rows db' = rows db.
Proof.
  intros Hop db e db'. unfold call.
  destruct (busy db) as [|[|] b]; intros Hc.
  - now apply Hop in Hc.
  - now injection Hc as <- <-.
  - now apply Hop in Hc.
Qed.

Lemma WithRetry_Create_err (ns dev cmd out : gostring) (en : bool) (n : nat) (d : Z)
  (db : DB) (e : error) (db' : DB) :
  WithRetry (Create ns dev cmd out en) n d db = (Err e, db') -> rows db' = rows db.
Proof.
  apply retry_err_rows. apply call_err_rows. intros ? ? ?. discriminate.
Qed.

Lemma WithRetry_Updates_err (x : SimDeviceCommand) (upd : fields) (n : nat) (d : Z)
  (db : DB) (e : error) (db' : DB) :
  WithRetry (Updates x upd) n d db = (Err e, db') -> rows db' = rows db.
Proof.
  apply retry_err_rows. apply call_err_rows. intros ? ? ?. discriminate.
Qed.

Lemma WithRetry_Delete_err (id : Z) (n : nat) (d : Z) (db : DB) (e : error) (db' : DB) :
  WithRetry (Delete id) n d db = (Err e, db') -> rows db' = rows db.
Proof.
  apply retry_err_rows. apply call_err_rows. intros ? ? ?. discriminate.
Qed.

(** X8. A failure answer means that nothing was written: whenever create,
    update or delete answer with status 500, the rows of the store are what
    they were.  (The converse does not hold for a merge, whose answer is a
    success even when the delete of the target failed.) *)
Theorem failure_writes_nothing (db : DB) :
  (forall body, status (fst (CreateSimDeviceCmd body db)) = 500 ->
                rows (snd (CreateSimDeviceCmd body db)) = rows db)
  /\ (forall id body, status (fst (UpdateSimDeviceCmd id body db)) = 500 ->
                      rows (snd (UpdateSimDeviceCmd id body db)) = rows db)
  /\ (forall id, status (fst (DeleteSimDeviceCmd id db)) = 500 ->
                 rows (snd (DeleteSimDeviceCmd id db)) = rows db).
Proof.
  split; [|split].
  - intros body. unfold CreateSimDeviceCmd.
    destruct body as [req|err]; [|reflexivity].
    destruct (_ || _ || _); [reflexivity|].
    unfold bind. pose proof (First_rows (where_key (strings.TrimSpace (req_Namespace req))
                                           (strings.TrimSpace (req_DeviceName req))
                                           (strings.TrimSpace (req_Command req))) db) as H1.
    destruct (First _ db) as [found db1]. simpl in H1.
    destruct found as [existing|e].
    + destruct (WithRetry _ 6 100 db1) as [[x|e] db2] eqn:E2; simpl.
      * vm_compute. discriminate.
      * intros _. apply WithRetry_Updates_err in E2. congruence.
    + destruct (WithRetry _ 6 100 db1) as [[x|e'] db2] eqn:E2; simpl.
      * vm_compute. discriminate.
      * intros _. apply WithRetry_Create_err in E2. congruence.
  - intros id body. unfold UpdateSimDeviceCmd.
    destruct (id <=? 0); [reflexivity|].
    destruct body as [req|err]; [|reflexivity].
    unfold bind. pose proof (First_rows (where_id id) db) as H1.
    destruct (First (where_id id) db) as [found db1]. simpl in H1.
    destruct found as [item|e]; [|intros _; exact H1].
    cbv zeta.
    match goal with |- context [First ?c db1] =>
      pose proof (First_rows c db1) as H2; destruct (First c db1) as [looked db2] end.
    simpl in H2.
    destruct (match looked with
              | Ok other => if negb (ID other =? ID item) then Some other else None
              | Err _ => None
              end) as [other|].
    + destruct (WithRetry (Updates other _) 6 100 db2) as [[x|e] db3] eqn:E3.
      * destruct (WithRetry (Delete (ID item)) 6 100 db3) as [u db4]. simpl.
        vm_compute. discriminate.
      * simpl. intros _. apply WithRetry_Updates_err in E3. congruence.
    + destruct (WithRetry (Updates item _) 6 100 db2) as [[x|e] db3] eqn:E3; simpl.
      * vm_compute. discriminate.
      * intros _. apply WithRetry_Updates_err in E3. congruence.
  - intros id. unfold DeleteSimDeviceCmd.
    destruct (id <=? 0); [reflexivity|].
    unfold bind.
    destruct (WithRetry (Delete id) 6 100 db) as [[u|e] db1] eqn:E1; simpl.
    + vm_compute. discriminate.
    + intros _. now apply WithRetry_Delete_err in E1.
Qed.

(** A store locked for seven calls in a row: the look-up of the create and
    its six attempts to insert. *)
Lemma failure_writes_nothing_run :
  let db := with_busy [true; true; true; true; true; true; true; false] merge_db in
  let body := Ok (sample_body "lab" "r1" "show clock" "12:00" true) in
  fst (CreateSimDeviceCmd body db)
  = JSON 500 "CREATE_FAILED" "创建失败: database is locked" H_none
  /\ rows (snd (CreateSimDeviceCmd body db)) = rows db.
Proof.
  split; [reflexivity|].
  apply (proj1 (failure_writes_nothing
                  (with_busy [true; true; true; true; true; true; true; false] merge_db))).
  reflexivity.
Defined.

Lemma retry_Delete_unlocked (id : Z) (d : Z) (k : nat) :
  forall (more : nat) (db : DB) (rest : list bool),
    busy db = repeat true k ++ rest ->
    hd false rest = false ->
    (k <= more)%nat ->
    retry (Delete id) more d db
    = (Ok tt, {| rows := filter (fun r => negb (where_id id r)) (rows db);
                 next_id := next_id db;
                 clock := clock db + d * Z.of_nat k;
                 busy := tl rest |}).
Proof.
  induction k as [|k IH]; intros more db rest Hb Hrest Hk.
  - simpl in Hb.
    assert (Hd : Delete id db
                 = (Ok tt, {| rows := filter (fun r => negb (where_id id r)) (rows db);
                              next_id := next_id db; clock := clock db + d * 0;
                              busy := tl rest |})).
    { unfold Delete, call, with_rows, with_busy. rewrite Hb, Z.mul_0_r, Z.add_0_r.
      destruct rest as [|[|] b]; simpl in *; try discriminate; reflexivity. }
    destruct more; simpl; now rewrite Hd.
  - destruct more as [|m]; [lia|]. simpl in Hb.
    cbn [retry]. unfold Delete at 1, call at 1. rewrite Hb.
    rewrite (IH m (tick d (with_busy (repeat true k ++ rest) db)) rest);
      [| reflexivity | exact Hrest | lia].
    simpl. do 2 f_equal. lia.
Qed.

Lemma retry_Delete_locked (id : Z) (d : Z) (more : nat) :
  forall (db : DB) (rest : list bool),
    busy db = repeat true (S more) ++ rest ->
    retry (Delete id) more d db
    = (Err ErrBusy, {| rows := rows db; next_id := next_id db;
                       clock := clock db + d * Z.of_nat more; busy := rest |}).
Proof.
  induction more as [|m IH]; intros db rest Hb; simpl in Hb;
    cbn [retry]; unfold Delete at 1, call at 1; rewrite Hb.
  - unfold with_busy. now rewrite Z.mul_0_r, Z.add_0_r.
  - rewrite (IH (tick d (with_busy (true :: repeat true m ++ rest) db)) rest);
      [|reflexivity].
    simpl. do 2 f_equal. lia.
Qed.

(** X9. A delete is attempted up to six times, 100 ms apart: when the store is
    locked for the first [k] calls and then takes one, the delete succeeds
    after [k] sleeps if [k < 6]; when it is locked for six calls the answer
    is the failure DELETE_FAILED after five sleeps, and no row is removed. *)
Theorem DeleteSimDeviceCmd_retries (db : DB) (id : Z) (k : nat) (rest : list bool) :
  0 < id ->
  busy db = repeat true k ++ rest ->
  hd false rest = false ->
  ((k < 6)%nat ->
   DeleteSimDeviceCmd id db
   = (JSON 200 "SUCCESS" "删除成功" H_none,
      {| rows := filter (fun r => negb (where_id id r)) (rows db);
         next_id := next_id db; clock := clock db + 100 * Z.of_nat k;
         busy := tl rest |}))
  /\ ((6 <= k)%nat ->
      DeleteSimDeviceCmd id db
      = (JSON 500 "DELETE_FAILED" "删除失败: database is locked" H_none,
         {| rows := rows db; next_id := next_id db; clock := clock db + 500;
            busy := repeat true (k - 6) ++ rest |})).
Proof.
  intros Hid Hb Hrest. unfold DeleteSimDeviceCmd.
  replace (id <=? 0) with false by (symmetry; apply Z.leb_gt; lia).
  unfold bind, WithRetry. cbn [Nat.pred]. split; intros Hk.
  - rewrite (retry_Delete_unlocked id 100 k 5 db rest Hb Hrest) by lia. reflexivity.
  - rewrite (retry_Delete_locked id 100 5 db (repeat true (k - 6) ++ rest)).
    + reflexivity.
    + rewrite Hb, app_assoc, <- repeat_app. do 2 f_equal. lia.
Qed.

Lemma DeleteSimDeviceCmd_retries_run :
  DeleteSimDeviceCmd 1 (with_busy [true; true; true; false; true] merge_db)
  = (JSON 200 "SUCCESS" "删除成功" H_none,
     {| rows := [sample_row 2 "lab" "r1" "cmd2" "two" true 1];
        next_id := 3; clock := 302; busy := [true] |}).
Proof.
  apply (proj1 (DeleteSimDeviceCmd_retries
                  (with_busy [true; true; true; false; true] merge_db) 1 3 [false; true]
                  ltac:(lia) eq_refl eq_refl)).
  lia.
Defined.

Lemma blank_fields_iff (a b c : gostring) :
  streq a [] || streq b [] || streq c [] = true <-> a = [] \/ b = [] \/ c = [].
Proof. rewrite !orb_true_iff, !streq_nil. tauto. Qed.

Ltac status_differs :=
  cbv [status fst snd ret JSON http.StatusOK http.StatusCreated http.StatusBadRequest
       http.StatusNotFound http.StatusInternalServerError];
  discriminate.

(** X10. Validation comes before any access to the store, and nothing else is
    answered with status 400: create and match answer 400 exactly when the
    body did not bind or a required field is blank, get and delete exactly
    when the id is not positive, update exactly when the id is not positive
    or the body did not bind; and a refused request leaves the store,
    including the contention ahead of it, untouched. *)
Theorem bad_request_iff_refused (To_LowerCase : rune -> rune) (db : DB) :
  (forall body,
     (status (fst (CreateSimDeviceCmd body db)) = 400 <-> refused_body body)
     /\ (refused_body body -> snd (CreateSimDeviceCmd body db) = db))
  /\ (forall id,
        (status (fst (GetSimDeviceCmd id db)) = 400 <-> id <= 0)
        /\ (id <= 0 -> snd (GetSimDeviceCmd id db) = db))
  /\ (forall id body,
        (status (fst (UpdateSimDeviceCmd id body db)) = 400
         <-> id <= 0 \/ exists err, body = Err err)
        /\ (id <= 0 \/ (exists err, body = Err err) ->
            snd (UpdateSimDeviceCmd id body db) = db))
  /\ (forall id,
        (status (fst (DeleteSimDeviceCmd id db)) = 400 <-> id <= 0)
        /\ (id <= 0 -> snd (DeleteSimDeviceCmd id db) = db))
  /\ (forall body,
        (status (fst (MatchSimDeviceCmd To_LowerCase body db)) = 400 <-> refused_match body)
        /\ (refused_match body -> snd (MatchSimDeviceCmd To_LowerCase body db) = db)).
Proof.
  split; [|split; [|split; [|split]]].
  - intros body. unfold CreateSimDeviceCmd, refused_body.
    destruct body as [req|err]; [|split; [split|]; auto].
    destruct (_ || _ || _) eqn:Ev.
    + apply blank_fields_iff in Ev. split; [split|]; auto.
    + assert (Hn : ~ (strings.TrimSpace (req_Namespace req) = []
                      \/ strings.TrimSpace (req_DeviceName req) = []
                      \/ strings.TrimSpace (req_Command req) = [])).
      { intros H. apply blank_fields_iff in H. congruence. }
      split; [|intros H; contradiction]. split; [|intros H; contradiction].
      unfold bind. destruct (First _ db) as [[existing|e] db1];
        destruct (WithRetry _ 6 100 db1) as [[x|e'] db2]; status_differs.
  - intros id. unfold GetSimDeviceCmd. destruct (Z.leb_spec id 0) as [Hid|Hid].
    + split; [split|]; auto.
    + split; [|lia]. split; [|lia].
      unfold bind. destruct (First _ db) as [[item|e] db1]; status_differs.
  - intros id body. unfold UpdateSimDeviceCmd. destruct (Z.leb_spec id 0) as [Hid|Hid].
    + split; [split|]; auto.
    + destruct body as [req|err].
      * assert (Hn : ~ (id <= 0 \/ exists err : string, @Ok string _ req = Err err))
          by (intros [H|[err H]]; [lia | discriminate]).
        split; [|intros H; contradiction]. split; [|intros H; contradiction].
        unfold bind. destruct (First _ db) as [[item|e] db1]; [|status_differs].
        cbv zeta.
        match goal with |- context [First ?c db1] =>
          destruct (First c db1) as [looked db2] end.
        destruct (match looked with
                  | Ok other => if negb (ID other =? ID item) then Some other else None
                  | Err _ => None
                  end) as [other|].
        -- destruct (WithRetry (Updates other _) 6 100 db2) as [[x|e] db3];
             [|status_differs].
           destruct (WithRetry (Delete (ID item)) 6 100 db3) as [u db4]. status_differs.
        -- destruct (WithRetry (Updates item _) 6 100 db2) as [[x|e] db3];
             status_differs.
      * split; [split|]; eauto.
  - intros id. unfold DeleteSimDeviceCmd. destruct (Z.leb_spec id 0) as [Hid|Hid].
    + split; [split|]; auto.
    + split; [|lia]. split; [|lia].
      unfold bind. destruct (WithRetry _ 6 100 db) as [[u|e] db1]; status_differs.
  - intros body. unfold MatchSimDeviceCmd, refused_match.
    destruct body as [req|err]; [|split; [split|]; auto].
    destruct (_ || _ || _) eqn:Ev.
    + apply blank_fields_iff in Ev. split; [split|]; auto.
    + assert (Hn : ~ (strings.TrimSpace (m_Namespace req) = []
                      \/ strings.TrimSpace (m_DeviceName req) = []
                      \/ strings.TrimSpace (m_Command req) = [])).
      { intros H. apply blank_fields_iff in H. congruence. }
      split; [|intros H; contradiction]. split; [|intros H; contradiction].
      unfold bind. destruct (Find _ db) as [[items|e] db1]; [|status_differs].
      destruct (scan _ _ _ _ _) as [[x|] [|c [|c' cs]]]; status_differs.
Qed.

(** * How the operations compose *)

Lemma find_map_keeping {A} (p : A -> bool) (g : A -> A) (l : list A) :
  (forall x, p (g x) = p x) -> find p (map g l) = option_map g (find p l).
Proof.
  intros Hp. induction l as [|x l IH]; [reflexivity|]. simpl.
  rewrite Hp. destruct (p x); [reflexivity | exact IH].
Qed.

Lemma find_snoc_fresh {A} (p : A -> bool) (l : list A) (x : A) :
  (forall y, In y l -> p y = false) -> p x = true -> find p (l ++ [x]) = Some x.
Proof.
  intros Hl Hx. induction l as [|y l IH]; simpl.
  - now rewrite Hx.
  - rewrite (Hl y) by now left. apply IH. intros z Hz. apply Hl. now right.
Qed.

Lemma find_by_id_unique (l : list SimDeviceCommand) (r : SimDeviceCommand) :
  NoDup (map ID l) -> In r l -> find (where_id (ID r)) l = Some r.
Proof.
  intros Hnd Hin. destruct (find (where_id (ID r)) l) as [x|] eqn:Ef.
  - destruct (find_where_id _ _ _ Ef) as [Hx Hid].
    f_equal. now apply (NoDup_ID_same l).
  - apply (find_none _ _ Ef) in Hin. unfold where_id in Hin.
    now rewrite Z.eqb_refl in Hin.
Qed.

Lemma GetSimDeviceCmd_quiet (db : DB) (id : Z) (r : SimDeviceCommand) :
  0 < id -> Quiet db -> find (where_id id) (rows db) = Some r ->
  GetSimDeviceCmd id db = (JSON 200 "SUCCESS" "查询成功" (H_record r), db).
Proof.
  intros Hid Hq Hf. unfold GetSimDeviceCmd.
  replace (id <=? 0) with false by (symmetry; apply Z.leb_gt; lia).
  unfold bind. now rewrite First_quiet, Hf by exact Hq.
Qed.

(** X11. An update whose prospective key is free, or held by the target itself,
    is carried out in place: on a quiet store the target takes the trimmed
    namespace, device and command of the request (each one kept when blank),
    the incoming output unless it is blank, and the incoming enabled flag,
    also when that is false; its id stays, a get of the id returns the new
    record, and the other records are untouched. *)
Theorem UpdateSimDeviceCmd_in_place (db : DB) (id : Z) (req : SimDeviceCmdBody)
  (item : SimDeviceCommand) :
  let newNS := if streq (strings.TrimSpace (req_Namespace req)) []
               then Namespace item else strings.TrimSpace (req_Namespace req) in
  let newDev := if streq (strings.TrimSpace (req_DeviceName req)) []
                then DeviceName item else strings.TrimSpace (req_DeviceName req) in
  let newCmd := if streq (strings.TrimSpace (req_Command req)) []
                then Command item else strings.TrimSpace (req_Command req) in
  let out := if streq (strings.TrimSpace (req_Output req)) []
             then Output item else req_Output req in
  0 < id ->
  Quiet db ->
  find (where_id id) (rows db) = Some item ->
  (find (where_key newNS newDev newCmd) (rows db) = None
   \/ exists o, find (where_key newNS newDev newCmd) (rows db) = Some o
                /\ ID o = ID item) ->
  exists item' db',
    UpdateSimDeviceCmd id (Ok req) db
    = (JSON 200 "SUCCESS" "更新成功" (H_record item'), db')
    /\ ID item' = id
    /\ Namespace item' = newNS
    /\ DeviceName item' = newDev
    /\ Command item' = newCmd
    /\ Output item' = out
    /\ Enabled item' = req_Enabled req
    /\ GetSimDeviceCmd id db' = (JSON 200 "SUCCESS" "查询成功" (H_record item'), db')
    /\ length (rows db') = length (rows db)
    /\ (forall r, In r (rows db) -> ID r <> id -> In r (rows db')).
Proof.
  intros newNS newDev newCmd out Hid Hq Hitem Hfree.
  destruct (find_where_id _ _ _ Hitem) as [Hin Hidi].
  rewrite (UpdateSimDeviceCmd_quiet db id req Hid Hq), Hitem. cbv zeta.
  fold newNS newDev newCmd.
  assert (Hbranch :
    match find (where_key newNS newDev newCmd) (rows db) with
    | Some other => negb (ID other =? ID item) = false
    | None => True
    end).
  { destruct Hfree as [->|[o [-> Ho]]]; [exact I|].
    apply negb_false_iff, Z.eqb_eq. exact Ho. }
  destruct (find (where_key newNS newDev newCmd) (rows db)) as [other|];
    [rewrite Hbranch|];
    (do 2 eexists; split; [reflexivity|];
     cbn [ID Namespace DeviceName Command Output Enabled assign opt
          f_namespace f_device_name f_command f_output f_enabled rows];
     repeat split;
     [ exact Hidi
     | destruct (streq newNS (Namespace item)) eqn:E; [symmetry; now apply streq_eq | reflexivity]
     | destruct (streq newDev (DeviceName item)) eqn:E; [symmetry; now apply streq_eq | reflexivity]
     | destruct (streq newCmd (Command item)) eqn:E; [symmetry; now apply streq_eq | reflexivity]
     | unfold out; now destruct (streq (strings.TrimSpace (req_Output req)) [])
     | apply GetSimDeviceCmd_quiet; [exact Hid | reflexivity |];
       cbn [rows]; rewrite find_map_keeping, Hitem;
       [ cbn [option_map]; unfold where_id; now rewrite Hidi, Z.eqb_refl
       | intros x; now destruct (where_id (ID item) x) ]
     | cbn [rows]; apply length_map
     | intros r Hr Hne; apply in_map_iff; exists r; split; [|exact Hr];
       unfold where_id; rewrite Hidi;
       destruct (Z.eqb_spec (ID r) id); [contradiction | reflexivity] ]).
Qed.

(** X12. A create for a key that a record already holds writes to that record and
    adds none: on a quiet store the record keeps its id, namespace, device
    and command as stored, takes the incoming output, an empty one included,
    and is enabled whatever it was and whatever flag was sent; no id is used
    up and the other records are untouched. *)
Theorem CreateSimDeviceCmd_upsert (db : DB) (req : SimDeviceCmdBody)
  (existing : SimDeviceCommand) :
  strings.TrimSpace (req_Namespace req) <> [] ->
  strings.TrimSpace (req_DeviceName req) <> [] ->
  strings.TrimSpace (req_Command req) <> [] ->
  Quiet db ->
  find (where_key (strings.TrimSpace (req_Namespace req))
          (strings.TrimSpace (req_DeviceName req))
          (strings.TrimSpace (req_Command req))) (rows db) = Some existing ->
  exists e' db',
    CreateSimDeviceCmd (Ok req) db
    = (JSON 200 "SUCCESS" "已更新现有记录" (H_record e'), db')
    /\ ID e' = ID existing
    /\ Namespace e' = Namespace existing
    /\ DeviceName e' = DeviceName existing
    /\ Command e' = Command existing
    /\ Output e' = req_Output req
    /\ Enabled e' = true
    /\ In e' (rows db')
    /\ length (rows db') = length (rows db)
    /\ next_id db' = next_id db
    /\ (forall r, In r (rows db) -> ID r <> ID existing -> In r (rows db')).
Proof.
  intros Hns Hdev Hcmd Hq Hf.
  rewrite (CreateSimDeviceCmd_existing db req existing Hns Hdev Hcmd Hf Hq).
  do 2 eexists. split; [reflexivity|]. cbn [rows next_id]. repeat split.
  - apply in_map_iff. exists existing. split.
    + unfold where_id. now rewrite Z.eqb_refl.
    + now apply find_some in Hf.
  - apply length_map.
  - intros r Hr Hne. apply in_map_iff. exists r. split; [|exact Hr].
    unfold where_id. destruct (Z.eqb_spec (ID r) (ID existing)); [contradiction | reflexivity].
Qed.

(** X13. Create and get: on a quiet store with ids as the store assigns them, the
    record a create answers with, inserted or rewritten, is exactly what a
    get of its id returns afterwards; it carries the incoming output and is
    enabled. *)
Theorem create_then_get (db : DB) (req : SimDeviceCmdBody) :
  strings.TrimSpace (req_Namespace req) <> [] ->
  strings.TrimSpace (req_DeviceName req) <> [] ->
  strings.TrimSpace (req_Command req) <> [] ->
  Quiet db -> well_keyed db -> positive_ids db ->
  exists r,
    data (fst (CreateSimDeviceCmd (Ok req) db)) = H_record r
    /\ code (fst (CreateSimDeviceCmd (Ok req) db)) = "SUCCESS"%string
    /\ Output r = req_Output req
    /\ Enabled r = true
    /\ fst (GetSimDeviceCmd (ID r) (snd (CreateSimDeviceCmd (Ok req) db)))
       = JSON 200 "SUCCESS" "查询成功" (H_record r).
Proof.
  intros Hns Hdev Hcmd Hq [Hnd [Hlt Hu]] [Hnext Hpos].
  rewrite Forall_forall in Hlt, Hpos.
  destruct (find (where_key (strings.TrimSpace (req_Namespace req))
                    (strings.TrimSpace (req_DeviceName req))
                    (strings.TrimSpace (req_Command req))) (rows db))
    as [e|] eqn:Ef.
  - rewrite (CreateSimDeviceCmd_existing db req e Hns Hdev Hcmd Ef Hq).
    eexists. cbn [fst snd data code JSON]. repeat split.
    destruct (find_some _ _ Ef) as [He _].
    rewrite GetSimDeviceCmd_quiet with
      (r := assign {| f_namespace := None; f_device_name := None; f_command := None;
                      f_output := Some (req_Output req); f_enabled := Some true |}
              (clock db) e);
      [reflexivity | apply (Hpos e He) | reflexivity |].
    cbn [rows ID assign]. rewrite find_map_keeping.
    + rewrite (find_by_id_unique _ e Hnd He). cbn [option_map].
      unfold where_id. now rewrite Z.eqb_refl.
    + intros x. destruct (where_id (ID e) x) eqn:E; exact E.
  - rewrite (CreateSimDeviceCmd_new db req Hns Hdev Hcmd Ef Hq).
    eexists. cbn [fst snd data code JSON]. repeat split.
    rewrite GetSimDeviceCmd_quiet with
      (r := {| ID := next_id db;
               Namespace := strings.TrimSpace (req_Namespace req);
               DeviceName := strings.TrimSpace (req_DeviceName req);
               Command := strings.TrimSpace (req_Command req);
               Output := req_Output req; Enabled := true; UpdatedAt := clock db |});
      [reflexivity | exact Hnext | reflexivity |].
    cbn [rows ID]. apply find_snoc_fresh.
    + intros y Hy. unfold where_id. apply Z.eqb_neq. specialize (Hlt y Hy). lia.
    + unfold where_id. apply Z.eqb_refl.
Qed.

Lemma filter_twice {A} (p : A -> bool) (l : list A) :
  filter p (filter p l) = filter p l.
Proof.
  apply filter_all. intros x Hx. now apply filter_In in Hx.
Qed.

(** X14. Delete and get: on a quiet store a delete of a positive id answers
    success whether or not a record has the id; afterwards a get of the id
    answers not-found, the records left are exactly the other ones, and a
    second delete of the id succeeds again and changes nothing. *)
Theorem delete_then_get (db : DB) (id : Z) :
  0 < id -> Quiet db ->
  fst (DeleteSimDeviceCmd id db) = JSON 200 "SUCCESS" "删除成功" H_none
  /\ fst (GetSimDeviceCmd id (snd (DeleteSimDeviceCmd id db)))
     = JSON 404 "NOT_FOUND" "记录不存在" H_none
  /\ (forall r, In r (rows (snd (DeleteSimDeviceCmd id db)))
                <-> In r (rows db) /\ ID r <> id)
  /\ DeleteSimDeviceCmd id (snd (DeleteSimDeviceCmd id db))
     = (JSON 200 "SUCCESS" "删除成功" H_none, snd (DeleteSimDeviceCmd id db)).
Proof.
  intros Hid Hq. rewrite (DeleteSimDeviceCmd_quiet db id Hid Hq). cbn [fst snd].
  split; [reflexivity|]. split; [|split].
  - rewrite GetSimDeviceCmd_absent; [reflexivity | exact Hid |].
    apply find_where_id_deleted.
  - intros r. cbn [rows with_rows]. rewrite filter_In. unfold where_id.
    rewrite negb_true_iff, Z.eqb_neq. reflexivity.
  - rewrite DeleteSimDeviceCmd_quiet; [| exact Hid | exact Hq].
    unfold with_rows. cbn [rows next_id clock busy]. now rewrite filter_twice.
Qed.

Lemma CreateSimDeviceCmd_fields_after (db : DB) (req : SimDeviceCmdBody) :
  forall y', In y' (rows (snd (CreateSimDeviceCmd (Ok req) db))) ->
    (exists y, In y (rows db) /\ Namespace y' = Namespace y
               /\ DeviceName y' = DeviceName y /\ Command y' = Command y)
    \/ (Namespace y' = strings.TrimSpace (req_Namespace req)
        /\ DeviceName y' = strings.TrimSpace (req_DeviceName req)
        /\ Command y' = strings.TrimSpace (req_Command req)).
Proof.
  apply (CreateSimDeviceCmd_keeps
           (fun l l' => forall y', In y' l' ->
              (exists y, In y l /\ Namespace y' = Namespace y
                         /\ DeviceName y' = DeviceName y /\ Command y' = Command y)
              \/ (Namespace y' = strings.TrimSpace (req_Namespace req)
                  /\ DeviceName y' = strings.TrimSpace (req_DeviceName req)
                  /\ Command y' = strings.TrimSpace (req_Command req)))).
  - intros l y' Hy. left. now exists y'.
  - intros l1 l2 l3 H12 H23 y' Hy. destruct (H23 y' Hy) as [[y [Hin [Hn [Hd Hc]]]]|H];
      [|now right].
    destruct (H12 y Hin) as [[z [Hz [Hn' [Hd' Hc']]]]|[Hn' [Hd' Hc']]].
    + left. exists z. repeat split; congruence.
    + right. repeat split; congruence.
  - intros req' [= <-] l id now y' Hy. apply in_app_or in Hy as [Hy|[<-|[]]].
    + left. now exists y'.
    + right. now repeat split.
  - intros req' [= <-] l id now y' Hy. apply in_map_iff in Hy as [y [Hy Hin]].
    left. exists y. split; [exact Hin|].
    destruct (where_id id y); subst y'; now repeat split.
Qed.

Lemma CreateSimDeviceCmd_key_row (db : DB) (req : SimDeviceCmdBody) :
  let ns := strings.TrimSpace (req_Namespace req) in
  let dev := strings.TrimSpace (req_DeviceName req) in
  let cmd := strings.TrimSpace (req_Command req) in
  ns <> [] -> dev <> [] -> cmd <> [] -> Quiet db ->
  Quiet (snd (CreateSimDeviceCmd (Ok req) db))
  /\ exists r, In r (rows (snd (CreateSimDeviceCmd (Ok req) db)))
               /\ where_key ns dev cmd r = true
               /\ Enabled r = true.
Proof.
  intros ns dev cmd Hns Hdev Hcmd Hq.
  destruct (find (where_key ns dev cmd) (rows db)) as [e|] eqn:Ef.
  - rewrite (CreateSimDeviceCmd_existing db req e Hns Hdev Hcmd Ef Hq).
    split; [reflexivity|]. destruct (find_some _ _ Ef) as [He Hk].
    eexists. cbn [snd rows]. split; [|split].
    + apply in_map_iff. exists e. split; [|exact He].
      unfold where_id. now rewrite Z.eqb_refl.
    + now rewrite where_key_assign.
    + reflexivity.
  - rewrite (CreateSimDeviceCmd_new db req Hns Hdev Hcmd Ef Hq).
    split; [reflexivity|]. eexists. cbn [snd rows]. split; [|split].
    + apply in_or_app. right. now left.
    + apply where_key_eq. now repeat split.
    + reflexivity.
Qed.

Section CreateThenMatch.

Variable To_LowerCase : rune -> rune.

(** X15. Create and match: after a create on a quiet store, a match for the same
    namespace, device and command, with or without [enabled_only], is
    answered "exact"; and it is answered with the output just sent when the
    store satisfies the uniqueness invariant and held no record of the
    device with the same normal form under another key. *)
Theorem create_then_match (db : DB) (req : SimDeviceCmdBody) (eo : bool) :
  let ns := strings.TrimSpace (req_Namespace req) in
  let dev := strings.TrimSpace (req_DeviceName req) in
  let cmd := strings.TrimSpace (req_Command req) in
  let ask := {| m_Namespace := req_Namespace req; m_DeviceName := req_DeviceName req;
                m_Command := req_Command req; m_EnabledOnly := eo |} in
  let db' := snd (CreateSimDeviceCmd (Ok req) db) in
  ns <> [] -> dev <> [] -> cmd <> [] -> Quiet db ->
  (exists out,
     fst (MatchSimDeviceCmd To_LowerCase (Ok ask) db')
     = JSON 200 "SUCCESS" "exact" (H_match "exact" out))
  /\ (unique_keys (rows db) = true ->
      (forall y, In y (rows db) -> Namespace y = ns -> DeviceName y = dev ->
         normalizeCommand To_LowerCase (Command y)
         = normalizeCommand To_LowerCase (req_Command req) ->
         where_key ns dev cmd y = true) ->
      fst (MatchSimDeviceCmd To_LowerCase (Ok ask) db')
      = JSON 200 "SUCCESS" "exact" (H_match "exact" (req_Output req))).
Proof.
  intros ns dev cmd ask db' Hns Hdev Hcmd Hq.
  destruct (CreateSimDeviceCmd_key_row db req Hns Hdev Hcmd Hq)
    as [Hq' [r [Hr [Hkr Her]]]].
  fold ns dev cmd db' in Hq', Hr, Hkr.
  set (n := normalizeCommand To_LowerCase (req_Command req)).
  set (p := fun y : SimDeviceCommand =>
              streq (normalizeCommand To_LowerCase (Command y)) n).
  set (items := filter (where_device ns dev eo) (rows db')).
  assert (Hkey_exact : forall y, where_key ns dev cmd y = true ->
            normalizeCommand To_LowerCase (Command y) = n).
  { intros y Hk. apply where_key_eq in Hk as [_ [_ Hc]].
    unfold n. rewrite <- (normalizeCommand_TrimSpace _ (req_Command req)).
    now apply LOWER_same_normal_form. }
  assert (Hri : In r items).
  { apply filter_In. split; [exact Hr|].
    apply where_key_eq in Hkr as [Hn [Hd _]].
    unfold where_device. rewrite Hn, Hd, !streq_refl, Her. now destruct eo. }
  assert (Hpr : p r = true) by (apply streq_eq; now apply Hkey_exact).
  destruct (first_match_split p items r Hri Hpr) as [pre [x [post [Hsplit [Hx Hpre]]]]].
  assert (Hans : fst (MatchSimDeviceCmd To_LowerCase (Ok ask) db')
                 = JSON 200 "SUCCESS" "exact" (H_match "exact" (Output x))).
  { rewrite MatchSimDeviceCmd_answers; try assumption;
      [| unfold Quiet in Hq'; now rewrite Hq'].
    cbn [m_Namespace m_DeviceName m_Command m_EnabledOnly ask].
    fold ns dev items. rewrite Hsplit.
    rewrite (scan_until_exact To_LowerCase _ _ pre x post []); [reflexivity | |].
    - intros y Hy. apply streq_neq. exact (Hpre y Hy).
    - apply streq_eq. exact Hx. }
  split; [now exists (Output x)|].
  intros Hu Hother. rewrite Hans. do 2 f_equal.
  destruct (CreateSimDeviceCmd_key_rows db req Hns Hdev Hcmd Hq
              (unique_keys_filter _ _ _ _ Hu)) as [_ [r' [Hr' Hout]]].
  fold ns dev cmd db' in Hr'. rewrite <- Hout.
  assert (Hxi : In x items) by (rewrite Hsplit; apply in_or_app; right; now left).
  apply filter_In in Hxi as [Hxr Hxd].
  assert (Hkx : where_key ns dev cmd x = true).
  { unfold where_device in Hxd. apply andb_true_iff in Hxd as [Hxd _].
    apply andb_true_iff in Hxd as [Hxn Hxdv]. apply streq_eq in Hxn, Hxdv.
    apply streq_eq in Hx. fold n in Hx.
    destruct (CreateSimDeviceCmd_fields_after db req x Hxr)
      as [[y [Hy [Hn [Hd Hc]]]]|[Hn [Hd Hc]]].
    - assert (Hky : where_key ns dev cmd y = true).
      { apply Hother; [exact Hy | congruence | congruence |].
        rewrite <- Hc. exact Hx. }
      apply where_key_eq in Hky as [Hn' [Hd' Hc']].
      apply where_key_eq. repeat split; congruence.
    - apply where_key_eq. repeat split; try assumption. now rewrite Hc. }
  assert (Hxf : In x (filter (where_key ns dev cmd) (rows db')))
    by (apply filter_In; now split).
  rewrite Hr' in Hxf. destruct Hxf as [<-|[]]. reflexivity.
Qed.

End CreateThenMatch.

(** * Listing *)

Lemma insert_desc_perm (r : SimDeviceCommand) (l : list SimDeviceCommand) :
  Permutation (insert_desc r l) (r :: l).
Proof.
  induction l as [|x t IH]; [reflexivity|]. simpl.
  destruct (UpdatedAt r <? UpdatedAt x); [|reflexivity].
  rewrite IH. apply perm_swap.
Qed.

Lemma updated_at_DESC_perm (l : list SimDeviceCommand) :
  Permutation (updated_at_DESC l) l.
Proof.
  induction l as [|x t IH]; [reflexivity|]. simpl.
  rewrite insert_desc_perm. now constructor.
Qed.

Lemma insert_desc_sorted (r : SimDeviceCommand) (l : list SimDeviceCommand) :
  StronglySorted (fun a b => UpdatedAt b <= UpdatedAt a) l ->
  StronglySorted (fun a b => UpdatedAt b <= UpdatedAt a) (insert_desc r l).
Proof.
  induction 1 as [|x t Ht IH Hx]; simpl.
  - repeat constructor.
  - destruct (Z.ltb_spec (UpdatedAt r) (UpdatedAt x)) as [Hlt|Hge].
    + constructor; [exact IH|].
      apply Forall_forall. intros y Hy.
      apply (Permutation_in _ (insert_desc_perm r t)) in Hy.
      destruct Hy as [<-|Hy]; [lia|].
      rewrite Forall_forall in Hx. now apply Hx.
    + constructor; [now constructor|].
      constructor; [exact Hge|].
      eapply Forall_impl; [|exact Hx]. cbv beta. intros y Hy. lia.
Qed.

Lemma updated_at_DESC_sorted (l : list SimDeviceCommand) :
  StronglySorted (fun a b => UpdatedAt b <= UpdatedAt a) (updated_at_DESC l).
Proof.
  induction l as [|x t IH]; [constructor|]. simpl. now apply insert_desc_sorted.
Qed.

Lemma where_list_meaning (ns dev enabledQ : gostring) (r : SimDeviceCommand) :
  where_list ns dev enabledQ r = true <->
  (ns = [] \/ Namespace r = ns)
  /\ (dev = [] \/ DeviceName r = dev)
  /\ (enabledQ = str "true" -> Enabled r = true)
  /\ (enabledQ = str "false" -> Enabled r = false).
Proof.
  unfold where_list. rewrite !andb_true_iff.
  assert (Hs : forall (a : gostring) (b : bool) (x : gostring),
            (if negb (streq a []) then streq x a else true) = true
            <-> a = [] \/ x = a).
  { intros a b x. destruct (streq a []) eqn:Ea; simpl.
    - apply streq_nil in Ea. tauto.
    - apply streq_neq in Ea. rewrite streq_eq. tauto. }
  rewrite (Hs ns true), (Hs dev true).
  assert (He : (if negb (streq enabledQ []) then
                  if streq enabledQ (str "true") then Enabled r
                  else if streq enabledQ (str "false") then negb (Enabled r) else true
                else true) = true
               <-> (enabledQ = str "true" -> Enabled r = true)
                   /\ (enabledQ = str "false" -> Enabled r = false)).
  { destruct (streq enabledQ []) eqn:E0; simpl.
    - apply streq_nil in E0. subst enabledQ. split; [|reflexivity].
      intros _. split; discriminate.
    - destruct (streq enabledQ (str "true")) eqn:Et.
      + apply streq_eq in Et. subst enabledQ. split.
        * intros H. split; [auto | discriminate].
        * intros [H _]. now apply H.
      + apply streq_neq in Et.
        destruct (streq enabledQ (str "false")) eqn:Ef.
        * apply streq_eq in Ef. subst enabledQ. rewrite negb_true_iff. split.
          -- intros H. split; [intros; contradiction | auto].
          -- intros [_ H]. now apply H.
        * apply streq_neq in Ef. split; [|reflexivity].
          intros _. split; intros; contradiction. }
  rewrite He. tauto.
Qed.

(** X16. When the store takes the query, a listing answers with exactly the
    stored records that pass the filters given: the namespace and the device
    when not blank, the enabled flag for the values "true" and "false"; each
    once, the most recently updated first; and it leaves the store as it
    was. *)
Theorem ListSimDeviceCmds_items (db : DB) (namespace device_name enabled : gostring) :
  let ns := strings.TrimSpace namespace in
  let dev := strings.TrimSpace device_name in
  let enabledQ := strings.TrimSpace enabled in
  hd false (busy db) = false ->
  exists items,
    fst (ListSimDeviceCmds namespace device_name enabled db)
    = {| l_status := 200; l_code := "SUCCESS"; l_message := "查询成功";
         l_data := Some items |}
    /\ Permutation items (filter (where_list ns dev enabledQ) (rows db))
    /\ StronglySorted (fun a b => UpdatedAt b <= UpdatedAt a) items
    /\ (forall r, In r items <->
          In r (rows db)
          /\ (ns = [] \/ Namespace r = ns)
          /\ (dev = [] \/ DeviceName r = dev)
          /\ (enabledQ = str "true" -> Enabled r = true)
          /\ (enabledQ = str "false" -> Enabled r = false))
    /\ rows (snd (ListSimDeviceCmds namespace device_name enabled db)) = rows db.
Proof.
  intros ns dev enabledQ Hb.
  exists (updated_at_DESC (filter (where_list ns dev enabledQ) (rows db))).
  split; [|split; [|split; [|split]]].
  - unfold ListSimDeviceCmds, bind, FindOrdered, call. fold ns dev enabledQ.
    destruct (busy db) as [|[|] b]; simpl in Hb; try discriminate; reflexivity.
  - apply updated_at_DESC_perm.
  - apply updated_at_DESC_sorted.
  - intros r. rewrite <- where_list_meaning, <- filter_In.
    split; apply Permutation_in;
      [apply updated_at_DESC_perm | symmetry; apply updated_at_DESC_perm].
  - unfold ListSimDeviceCmds, bind, FindOrdered, call.
    destruct (busy db) as [|[|] b]; reflexivity.
Qed.

(** X17. The [enabled] parameter of a listing counts for the exact values "true"
    and "false" only: any other value, such as "TRUE" or "1", is ignored and
    the listing is the one without that parameter. *)
Theorem ListSimDeviceCmds_enabled_ignored (db : DB)
  (namespace device_name enabled : gostring) :
  strings.TrimSpace enabled <> str "true" ->
  strings.TrimSpace enabled <> str "false" ->
  ListSimDeviceCmds namespace device_name enabled db
  = ListSimDeviceCmds namespace device_name [] db.
Proof.
  intros Ht Hf. apply streq_neq in Ht, Hf.
  assert (Hext : forall r,
            where_list (strings.TrimSpace namespace) (strings.TrimSpace device_name)
              (strings.TrimSpace enabled) r
            = where_list (strings.TrimSpace namespace) (strings.TrimSpace device_name)
                (strings.TrimSpace []) r).
  { intros r. unfold where_list. rewrite Ht, Hf. f_equal.
    now destruct (negb (streq (strings.TrimSpace enabled) [])). }
  unfold ListSimDeviceCmds, bind, FindOrdered, call.
  destruct (busy db) as [|[|] b]; cbn [rows with_busy];
    rewrite ?(filter_ext _ _ Hext); reflexivity.
Qed.

Lemma First_taken (cond : SimDeviceCommand -> bool) (db : DB) (b : list bool) :
  busy db = false :: b ->
  First cond db
  = (match find cond (rows db) with
     | Some r => Ok r
     | None => Err ErrRecordNotFound
     end, with_busy b db).
Proof.
  intros Hb. unfold First, call. rewrite Hb. cbn [rows with_busy].
  now destruct (find cond (rows db)).
Qed.

Lemma WithRetry_taken {A} (op : M (result error A)) (attempts : nat) (delay : Z)
  (db : DB) (b : list bool) (a : A) (db' : DB) :
  busy db = false :: b -> op (with_busy b db) = (Ok a, db') ->
  WithRetry (call op) attempts delay db = (Ok a, db').
Proof.
  intros Hb Hop. unfold WithRetry.
  destruct (Nat.pred attempts); simpl; unfold call; rewrite Hb, Hop; reflexivity.
Qed.

(** X18. A merge whose delete fails: when the store takes the two look-ups and
    the rewrite of the other record and is then locked for the six attempts
    to delete the target, the failure of the delete is dropped: the answer is
    the success of a merge with the rewritten record, and the target is
    still stored, so that both records remain. *)
Theorem UpdateSimDeviceCmd_merge_delete_locked (db : DB) (id : Z)
  (req : SimDeviceCmdBody) (item other : SimDeviceCommand) (rest : list bool) :
  let newNS := if streq (strings.TrimSpace (req_Namespace req)) []
               then Namespace item else strings.TrimSpace (req_Namespace req) in
  let newDev := if streq (strings.TrimSpace (req_DeviceName req)) []
                then DeviceName item else strings.TrimSpace (req_DeviceName req) in
  let newCmd := if streq (strings.TrimSpace (req_Command req)) []
                then Command item else strings.TrimSpace (req_Command req) in
  let out := if streq (strings.TrimSpace (req_Output req)) []
             then Output item else req_Output req in
  0 < id ->
  busy db = false :: false :: false :: repeat true 6 ++ rest ->
  find (where_id id) (rows db) = Some item ->
  find (where_key newNS newDev newCmd) (rows db) = Some other ->
  ID other <> ID item ->
  exists other' db',
    UpdateSimDeviceCmd id (Ok req) db
    = (JSON 200 "SUCCESS" "已合并到唯一记录" (H_record other'), db')
    /\ ID other' = ID other
    /\ Output other' = out
    /\ Enabled other' = req_Enabled req
    /\ In other' (rows db')
    /\ In item (rows db')
    /\ busy db' = rest.
Proof.
  intros newNS newDev newCmd out Hid Hb Hitem Hlook Hne.
  destruct (find_where_id _ _ _ Hitem) as [Hin Hidi].
  destruct (find_some _ _ Hlook) as [Hother _].
  unfold UpdateSimDeviceCmd.
  replace (id <=? 0) with false by (symmetry; apply Z.leb_gt; lia).
  unfold bind. rewrite (First_taken _ db _ Hb), Hitem.
  cbv beta iota zeta. fold newNS newDev newCmd.
  rewrite (First_taken _ (with_busy _ db) (false :: repeat true 6 ++ rest) eq_refl).
  cbn [rows with_busy]. rewrite Hlook. cbv beta iota.
  replace (ID other =? ID item) with false by (symmetry; now apply Z.eqb_neq).
  cbv beta iota delta [negb].
  unfold Updates.
  erewrite WithRetry_taken; [| reflexivity | reflexivity].
  cbv beta iota. unfold WithRetry. cbn [Nat.pred].
  rewrite (retry_Delete_locked (ID item) 100 5 _ rest) by reflexivity.
  unfold ret. do 2 eexists. split; [reflexivity|].
  cbn [ID Output Enabled assign opt f_output f_enabled rows busy with_busy].
  repeat split.
  - unfold out. now destruct (streq (strings.TrimSpace (req_Output req)) []).
  - apply in_map_iff. exists other. split; [|exact Hother].
    unfold where_id. now rewrite Z.eqb_refl.
  - apply in_map_iff. exists item. split; [|exact Hin].
    unfold where_id. destruct (Z.eqb_spec (ID item) (ID other)); [|reflexivity].
    exfalso. apply Hne. congruence.
Qed.

(** X19. Reads are attempted once, and an error of a look-up is taken for
    absence: when the store is locked at the first call, get and update
    answer not-found whether or not the record exists, match and list answer
    their store failure, and create, whose look-up failed, inserts a new
    record (once the store takes the insert) whether or not the key is
    held. *)
Theorem locked_reads (To_LowerCase : rune -> rune) (db : DB) (b : list bool) :
  busy db = true :: b ->
  (forall id, 0 < id ->
     GetSimDeviceCmd id db
     = (JSON 404 "NOT_FOUND" "记录不存在" H_none, with_busy b db))
  /\ (forall id req, 0 < id ->
        UpdateSimDeviceCmd id (Ok req) db
        = (JSON 404 "NOT_FOUND" "记录不存在" H_none, with_busy b db))
  /\ (forall req, ~ refused_match (Ok req) ->
        MatchSimDeviceCmd To_LowerCase (Ok req) db
        = (JSON 500 "DB_ERROR" "查询失败: database is locked" H_none, with_busy b db))
  /\ (forall namespace device_name enabled,
        ListSimDeviceCmds namespace device_name enabled db
        = ({| l_status := 500; l_code := "LIST_FAILED";
              l_message := "查询失败: database is locked"; l_data := None |},
           with_busy b db))
  /\ (forall req, ~ refused_body (Ok req) -> hd false b = false ->
        exists r db',
          CreateSimDeviceCmd (Ok req) db
          = (JSON 201 "SUCCESS" "创建成功" (H_record r), db')
          /\ rows db' = rows db ++ [r]
          /\ Command r = strings.TrimSpace (req_Command req)).
Proof.
  intros Hb. split; [|split; [|split; [|split]]].
  - intros id Hid. unfold GetSimDeviceCmd.
    replace (id <=? 0) with false by (symmetry; apply Z.leb_gt; lia).
    unfold bind, First, call. now rewrite Hb.
  - intros id req Hid. unfold UpdateSimDeviceCmd.
    replace (id <=? 0) with false by (symmetry; apply Z.leb_gt; lia).
    unfold bind, First, call. now rewrite Hb.
  - intros req Hok. unfold MatchSimDeviceCmd.
    destruct (_ || _ || _) eqn:Ev.
    + exfalso. apply Hok. now apply blank_fields_iff in Ev.
    + unfold bind, Find, call. now rewrite Hb.
  - intros ns dev en. unfold ListSimDeviceCmds, bind, FindOrdered, call.
    now rewrite Hb.
  - intros req Hok Hnext. unfold CreateSimDeviceCmd.
    destruct (_ || _ || _) eqn:Ev.
    + exfalso. apply Hok. now apply blank_fields_iff in Ev.
    + unfold bind, First at 1, call at 1. rewrite Hb. cbv beta iota.
      unfold WithRetry, Create. cbn [Nat.pred retry]. unfold call at 1.
      cbn [busy with_busy].
      destruct b as [|[|] b']; simpl in Hnext; try discriminate;
        (do 2 eexists; split; [reflexivity|]; split; reflexivity).
Qed.

(** The store of the merge example, locked at the first call. *)
Lemma locked_reads_run :
  GetSimDeviceCmd 1 (with_busy [true] merge_db)
  = (JSON 404 "NOT_FOUND" "记录不存在" H_none, merge_db)
  /\ exists r db',
       CreateSimDeviceCmd (Ok (sample_body "lab" "r1" "CMD1" "again" true))
         (with_busy [true] merge_db)
       = (JSON 201 "SUCCESS" "创建成功" (H_record r), db')
       /\ rows db' = rows (with_busy [true] merge_db) ++ [r]
       /\ Command r = str "CMD1".
Proof.
  pose proof (locked_reads ascii_case_only (with_busy [true] merge_db) [] eq_refl)
    as [Hget [_ [_ [_ Hcreate]]]].
  split.
  - apply (Hget 1). lia.
  - apply (Hcreate (sample_body "lab" "r1" "CMD1" "again" true)); [|reflexivity].
    vm_compute. intros [H|[H|H]]; discriminate.
Defined.

(** * Concrete runs of the further properties *)

(** Record A of the merge example is renamed and disabled in place. *)
Lemma UpdateSimDeviceCmd_in_place_run :
  exists item' db',
    UpdateSimDeviceCmd 1 (Ok (sample_body "" "" " Cmd3 " "" false)) merge_db
    = (JSON 200 "SUCCESS" "更新成功" (H_record item'), db')
    /\ Command item' = str "Cmd3"
    /\ Output item' = str "one"
    /\ Enabled item' = false
    /\ GetSimDeviceCmd 1 db' = (JSON 200 "SUCCESS" "查询成功" (H_record item'), db').
Proof.
  destruct (UpdateSimDeviceCmd_in_place merge_db 1 (sample_body "" "" " Cmd3 " "" false)
              (sample_row 1 "lab" "r1" "cmd1" "one" true 0)
              ltac:(lia) eq_refl eq_refl (or_introl eq_refl))
    as [item' [db' [E [_ [_ [_ [Hc [Ho [He [Hg _]]]]]]]]]].
  exists item', db'. repeat split; assumption.
Defined.

(** A create with the flag false and an empty output for the key of the
    disabled record: the record is enabled and its output erased. *)
Lemma CreateSimDeviceCmd_upsert_run :
  exists e' db',
    CreateSimDeviceCmd (Ok (sample_body "lab" "r1" "CMD1" "" false))
      (with_rows [sample_row 1 "lab" "r1" "cmd1" "one" false 0] merge_db)
    = (JSON 200 "SUCCESS" "已更新现有记录" (H_record e'), db')
    /\ Command e' = str "cmd1"
    /\ Output e' = []
    /\ Enabled e' = true
    /\ length (rows db') = 1%nat.
Proof.
  destruct (CreateSimDeviceCmd_upsert
              (with_rows [sample_row 1 "lab" "r1" "cmd1" "one" false 0] merge_db)
              (sample_body "lab" "r1" "CMD1" "" false)
              (sample_row 1 "lab" "r1" "cmd1" "one" false 0)
              ltac:(vm_compute; discriminate) ltac:(vm_compute; discriminate)
              ltac:(vm_compute; discriminate) eq_refl eq_refl)
    as [e' [db' [E [_ [_ [_ [Hc [Ho [He [_ [Hl _]]]]]]]]]]].
  exists e', db'. repeat split; assumption.
Defined.

Lemma merge_db_positive_ids : positive_ids merge_db.
Proof. split; [reflexivity|]. repeat constructor. Qed.

Lemma merge_db_well_keyed : well_keyed merge_db.
Proof.
  unfold well_keyed, merge_db. cbn [rows next_id]. repeat split.
  - repeat constructor; simpl; intuition discriminate.
  - repeat constructor; simpl; lia.
Qed.

Lemma create_then_get_run :
  exists r,
    data (fst (CreateSimDeviceCmd (Ok (sample_body "lab" "r1" "show clock" "12:00" false))
                 merge_db)) = H_record r
    /\ code (fst (CreateSimDeviceCmd (Ok (sample_body "lab" "r1" "show clock" "12:00" false))
                    merge_db)) = "SUCCESS"%string
    /\ Output r = str "12:00"
    /\ Enabled r = true
    /\ fst (GetSimDeviceCmd (ID r)
              (snd (CreateSimDeviceCmd
                      (Ok (sample_body "lab" "r1" "show clock" "12:00" false)) merge_db)))
       = JSON 200 "SUCCESS" "查询成功" (H_record r).
Proof.
  apply (create_then_get merge_db (sample_body "lab" "r1" "show clock" "12:00" false));
    try (vm_compute; discriminate);
    [reflexivity | exact merge_db_well_keyed | exact merge_db_positive_ids].
Defined.

Lemma delete_then_get_run :
  fst (DeleteSimDeviceCmd 1 merge_db) = JSON 200 "SUCCESS" "删除成功" H_none
  /\ fst (GetSimDeviceCmd 1 (snd (DeleteSimDeviceCmd 1 merge_db)))
     = JSON 404 "NOT_FOUND" "记录不存在" H_none
  /\ (forall r, In r (rows (snd (DeleteSimDeviceCmd 1 merge_db)))
                <-> In r (rows merge_db) /\ ID r <> 1)
  /\ DeleteSimDeviceCmd 1 (snd (DeleteSimDeviceCmd 1 merge_db))
     = (JSON 200 "SUCCESS" "删除成功" H_none, snd (DeleteSimDeviceCmd 1 merge_db)).
Proof.
  apply (delete_then_get merge_db 1); [lia | reflexivity].
Defined.

(** The command is created in mixed case and asked for in mixed case. *)
Lemma create_then_match_run :
  let req := sample_body "lab" "r1" " Show  Clock" "12:00" false in
  let ask := {| m_Namespace := req_Namespace req; m_DeviceName := req_DeviceName req;
                m_Command := req_Command req; m_EnabledOnly := true |} in
  fst (MatchSimDeviceCmd ascii_case_only (Ok ask)
         (snd (CreateSimDeviceCmd (Ok req) route_db)))
  = JSON 200 "SUCCESS" "exact" (H_match "exact" (str "12:00")).
Proof.
  apply (proj2 (create_then_match ascii_case_only route_db
                  (sample_body "lab" "r1" " Show  Clock" "12:00" false) true
                  ltac:(vm_compute; discriminate) ltac:(vm_compute; discriminate)
                  ltac:(vm_compute; discriminate) eq_refl)).
  - reflexivity.
  - intros y [<-|[<-|[<-|[]]]] _ _ Hn; vm_compute in Hn; discriminate.
Defined.

Lemma ListSimDeviceCmds_items_run :
  exists items,
    fst (ListSimDeviceCmds (str " lab ") [] (str "true") route_db)
    = {| l_status := 200; l_code := "SUCCESS"; l_message := "查询成功";
         l_data := Some items |}
    /\ map ID items = [3; 2; 1].
Proof.
  destruct (ListSimDeviceCmds_items route_db (str " lab ") [] (str "true") eq_refl)
    as [items [E _]].
  exists items. split; [exact E|].
  vm_compute in E. injection E as <-. reflexivity.
Defined.

Lemma ListSimDeviceCmds_enabled_ignored_run :
  ListSimDeviceCmds (str "lab") (str "r1") (str "TRUE") route_db
  = ListSimDeviceCmds (str "lab") (str "r1") [] route_db.
Proof.
  apply (ListSimDeviceCmds_enabled_ignored route_db); vm_compute; discriminate.
Defined.

(** The merge example with the store locked for the delete of A. *)
Lemma UpdateSimDeviceCmd_merge_delete_locked_run :
  exists other' db',
    UpdateSimDeviceCmd 1 (Ok (sample_body "" "" "CMD2" "new" false))
      (with_busy [false; false; false; true; true; true; true; true; true; false] merge_db)
    = (JSON 200 "SUCCESS" "已合并到唯一记录" (H_record other'), db')
    /\ ID other' = 2
    /\ Output other' = str "new"
    /\ In (sample_row 1 "lab" "r1" "cmd1" "one" true 0) (rows db')
    /\ busy db' = [false].
Proof.
  destruct (UpdateSimDeviceCmd_merge_delete_locked
              (with_busy [false; false; false; true; true; true; true; true; true; false]
                 merge_db)
              1 (sample_body "" "" "CMD2" "new" false)
              (sample_row 1 "lab" "r1" "cmd1" "one" true 0)
              (sample_row 2 "lab" "r1" "cmd2" "two" true 1) [false]
              ltac:(lia) eq_refl eq_refl eq_refl ltac:(vm_compute; discriminate))
    as [other' [db' [E [Hi [Ho [_ [_ [Hit Hb]]]]]]]].
  exists other', db'. repeat split; assumption.
Defined.
